(** * Two-phase delivery tracking of gastown's mail package

    A shallow embedding of [internal/mail/delivery.go]: the label constants,
    the two label producers [DeliverySendLabels] and
    [DeliveryAckLabelSequence], and the state deriver [ParseDeliveryLabels].

    The deriver and the ack producer call Go's standard [time] package
    ([time.Parse], [Time.UTC], [Time.Format] with the layout
    [time.RFC3339]).  That package is not part of the repository; module
    [GoTime] below is a model of the part of it that the mail package
    reaches, written after the library's own functions. *)

From Stdlib Require Import ZArith Lia Bool List Ascii String.
From Stdlib Require Import Numbers.DecimalString.
Import ListNotations.

Local Open Scope string_scope.
Local Open Scope Z_scope.

(** ** Go strings

    A Go string is a sequence of bytes; [string] (a list of [ascii]) models
    it.  Indices and lengths are [nat]. *)

Module GoString.

(** [s[n:]] for [n <= len(s)]. *)
Fixpoint drop (n : nat) (s : string) : string :=
  match n, s with
  | O, _ => s
  | S _, EmptyString => EmptyString
  | S n', String _ s' => drop n' s'
  end.

(** [strings.HasPrefix(s, prefix)]. *)
Definition HasPrefix (s prefix : string) : bool := String.prefix prefix s.

(** [strings.TrimPrefix(s, prefix)]: [s] without the leading [prefix],
    [s] itself when it does not start with [prefix]. *)
Definition TrimPrefix (s prefix : string) : string :=
  if HasPrefix s prefix then drop (String.length prefix) s else s.

(** [i < len(s) && s[i] == c]. *)
Definition byteIs (s : string) (i : nat) (c : ascii) : bool :=
  match String.get i s with
  | Some c' => Ascii.eqb c' c
  | None => false
  end.

(** The byte [c] as a number. *)
Definition code (c : ascii) : Z := Z.of_N (N_of_ascii c).

(** ['0' <= c && c <= '9']. *)
Definition isDigitChar (c : ascii) : bool :=
  (48 <=? code c) && (code c <=? 57).

(** The character ['0' + n]. *)
Definition digitChar (n : Z) : ascii := ascii_of_N (Z.to_N (48 + n)).

End GoString.

Import GoString.

(** ** A model of Go's [time] package

    The functions follow the library's sources (as of Go 1.20 to 1.23:
    the date arithmetic by cycles of years, [appendFormatRFC3339], the
    fast path [parseRFC3339] and the general layout parser), with option
    results for errors and integers without bound. *)

Module GoTime.

(** An instant with the offset of the zone it is presented in.
    [unixSec] counts seconds since 1970-01-01T00:00:00Z, [nsec] is the
    nanosecond within the second, and [offset] is the zone's offset in
    seconds east of UTC ([0] for [time.UTC]).  The name and identity of
    the [*Location] are not modelled; the second count is a mathematical
    integer. *)
Record Time : Type := mkTime {
  unixSec : Z;
  nsec : Z;
  offset : Z
}.

Definition secondsPerMinute : Z := 60.
Definition secondsPerHour : Z := 60 * secondsPerMinute.
Definition secondsPerDay : Z := 24 * secondsPerHour.
Definition daysPer400Years : Z := 365 * 400 + 97.
Definition daysPer100Years : Z := 365 * 100 + 24.
Definition daysPer4Years : Z := 365 * 4 + 1.

(** Seconds from 0001-01-01T00:00:00Z to the Unix epoch. *)
Definition unixToInternal : Z :=
  (1969 * 365 + 1969 / 4 - 1969 / 100 + 1969 / 400) * secondsPerDay.

(** [isLeap(year)]. *)
Definition isLeap (year : Z) : bool :=
  (year mod 4 =? 0) && (negb (year mod 100 =? 0) || (year mod 400 =? 0)).

(** [daysBefore[m]]: days of a non-leap year before month [m+1]. *)
Definition daysBefore (m : Z) : Z :=
  nth (Z.to_nat m) [0; 31; 59; 90; 120; 151; 181; 212; 243; 273; 304; 334; 365] 0.

(** [daysIn(m, year)]. *)
Definition daysIn (m year : Z) : Z :=
  if (m =? 2) && isLeap year then 29
  else daysBefore m - daysBefore (m - 1).

(** [daysSinceEpoch(year)]: days from 0001-01-01 to January 1 of [year],
    by 400-, 100- and 4-year cycles.  Go shifts the year to an epoch far
    in the past to keep its unsigned arithmetic positive; here the
    divisions round down. *)
Definition daysSinceEpoch (year : Z) : Z :=
  let y := year - 1 in
  let n := y / 400 in
  let y := y - 400 * n in
  let d := daysPer400Years * n in
  let n := y / 100 in
  let y := y - 100 * n in
  let d := d + daysPer100Years * n in
  let n := y / 4 in
  let y := y - 4 * n in
  let d := d + daysPer4Years * n in
  d + 365 * y.

(** [norm(hi, lo, base)]: carry [lo] into [hi] so that [0 <= lo < base]. *)
Definition norm (hi lo base : Z) : Z * Z := (hi + lo / base, lo mod base).

(** [Date(year, month, day, hour, min, sec, nsec, UTC)]. *)
Definition Date (year month day hour min sec nsec : Z) : Time :=
  let '(year, m) := norm year (month - 1) 12 in
  let month := m + 1 in
  let '(sec, nsec) := norm sec nsec 1000000000 in
  let '(min, sec) := norm min sec 60 in
  let '(hour, min) := norm hour min 60 in
  let '(day, hour) := norm day hour 24 in
  let d := daysSinceEpoch year in
  let d := d + daysBefore (month - 1) in
  let d := if isLeap year && (3 <=? month) then d + 1 else d in
  let d := d + (day - 1) in
  let abs := d * secondsPerDay in
  let abs := abs + (hour * secondsPerHour + min * secondsPerMinute + sec) in
  mkTime (abs - unixToInternal) nsec 0.

(** The first half of [absDate]: the year of day number [d] (days since
    0001-01-01) and the day within that year, counted from zero. *)
Definition absYearDay (d : Z) : Z * Z :=
  let n := d / daysPer400Years in
  let y := 400 * n in
  let d := d - daysPer400Years * n in
  let n := d / daysPer100Years in
  let n := n - Z.shiftr n 2 in
  let y := y + 100 * n in
  let d := d - daysPer100Years * n in
  let n := d / daysPer4Years in
  let y := y + 4 * n in
  let d := d - daysPer4Years * n in
  let n := d / 365 in
  let n := n - Z.shiftr n 2 in
  let y := y + n in
  let d := d - 365 * n in
  (y + 1, d).

(** The second half of [absDate]: month and day of the month of day
    [yday] of a year, leap or not.  The month is first estimated as if
    every month had 31 days, then adjusted. *)
Definition monthDay (leap : bool) (yday : Z) : Z * Z :=
  let day := yday in
  if leap && (day =? 31 + 29 - 1) then (2, 29)
  else
    let day := if leap && (31 + 29 - 1 <? day) then day - 1 else day in
    let month := day / 31 in
    let e := daysBefore (month + 1) in
    let '(month, begin) :=
      if e <=? day then (month + 1, e) else (month, daysBefore month) in
    (month + 1, day - begin + 1).

(** [absDate]: the civil date of day number [d], as (year, month, day). *)
Definition absDate (d : Z) : Z * Z * Z :=
  let '(year, yday) := absYearDay d in
  let '(month, day) := monthDay (isLeap year) yday in
  (year, month, day).

(** [t.UTC()]: the same instant, presented in UTC. *)
Definition UTC (t : Time) : Time := mkTime (unixSec t) (nsec t) 0.

(** [t.Truncate(time.Second)]: the fraction of the second dropped. *)
Definition TruncateSecond (t : Time) : Time := mkTime (unixSec t) 0 (offset t).

(** Seconds since 0001-01-01T00:00:00 on the clock of [t]'s zone. *)
Definition abs (t : Time) : Z := unixSec t + offset t + unixToInternal.

(** [t.Year()]. *)
Definition Year (t : Time) : Z := fst (fst (absDate (abs t / secondsPerDay))).

(** [t.Clock()]: hour, minute and second within the day. *)
Definition clock (t : Time) : Z * Z * Z :=
  let sec := abs t mod secondsPerDay in
  let hour := sec / secondsPerHour in
  let sec := sec - hour * secondsPerHour in
  let min := sec / secondsPerMinute in
  let sec := sec - min * secondsPerMinute in
  (hour, min, sec).

(** *** Formatting: [Time.Format(time.RFC3339)] *)

(** The decimal digits of [u >= 0], without padding. *)
Definition decimal (u : Z) : string :=
  NilEmpty.string_of_uint (N.to_uint (Z.to_N u)).

(** [n] characters [0], the padding of [appendInt]. *)
Fixpoint zeros (n : nat) : string :=
  match n with
  | O => EmptyString
  | S n' => String "0" (zeros n')
  end.

(** The lookup tables [tens] and [ones] of two-digit numbers. *)
Definition tens (u : Z) : ascii := digitChar (u / 10).
Definition ones (u : Z) : ascii := digitChar (u mod 10).

(** [appendInt(b, x, width)]: the decimal form of [x], zero-padded to
    [width] digits, after a minus sign when [x] is negative. *)
Definition appendInt (x : Z) (width : nat) : string :=
  let u := Z.abs x in
  (if x <? 0 then "-" else "") ++
  (if Nat.eqb width 2 && (u <? 100) then
     String (tens u) (String (ones u) "")
   else if Nat.eqb width 4 && (u <? 10000) then
     String (tens (u / 100)) (String (ones (u / 100))
       (String (tens (u mod 100)) (String (ones (u mod 100)) "")))
   else
     let ds := decimal u in
     zeros (width - String.length ds) ++ ds).

(** The layouts that the mail package hands to [Format] and [Parse]. *)
Inductive Layout : Type :=
| RFC3339 (* "2006-01-02T15:04:05Z07:00" *).

(** [t.appendFormatRFC3339(b, false)]: date and clock in [t]'s zone, then
    [Z] for offset zero and the signed [hh:mm] offset otherwise. *)
Definition appendFormatRFC3339 (t : Time) : string :=
  let '(year, month, day) := absDate (abs t / secondsPerDay) in
  let '(hour, min, sec) := clock t in
  (appendInt year 4 ++ "-" ++ appendInt month 2 ++ "-" ++ appendInt day 2
   ++ "T"
   ++ appendInt hour 2 ++ ":" ++ appendInt min 2 ++ ":" ++ appendInt sec 2
   ++ (if offset t =? 0 then "Z"
       else
         let zone := Z.quot (offset t) 60 in
         let '(sign, zone) := if zone <? 0 then ("-", - zone) else ("+", zone) in
         sign ++ appendInt (zone / 60) 2 ++ ":" ++ appendInt (zone mod 60) 2)).

(** *** Parsing: [time.Parse(time.RFC3339, value)]

    A failed parse ([err != nil]) is [None]. *)

Notation "x <- e ;; k" :=
  (match e with Some x => k | None => None end)
  (at level 61, e at next level, right associativity, only parsing).
Notation "' p <- e ;; k" :=
  (match e with Some p => k | None => None end)
  (at level 61, p pattern, e at next level, right associativity, only parsing).

(** [isDigit(s, i)]: [i < len(s)] and [s[i]] is a decimal digit. *)
Definition isDigit (s : string) (i : nat) : bool :=
  match String.get i s with
  | Some c => isDigitChar c
  | None => false
  end.

(** The value of the digit [s[i]]. *)
Definition digitAt (s : string) (i : nat) : Z :=
  match String.get i s with
  | Some c => code c - 48
  | None => 0
  end.

Fixpoint parseUintLoop (s : string) (x : Z) : option Z :=
  match s with
  | EmptyString => Some x
  | String c s' =>
      if isDigitChar c then parseUintLoop s' (x * 10 + code c - 48) else None
  end.

(** The closure [parseUint] of [parseRFC3339]: [s] as an unsigned decimal
    number within [min..max].  Go records a failure in a flag that is
    tested before any result is returned; here the failure is [None]. *)
Definition parseUint (s : string) (min max : Z) : option Z :=
  x <- parseUintLoop s 0 ;;
  if (x <? min) || (max <? x) then None else Some x.

(** How many leading bytes of [s] are digits. *)
Fixpoint countDigits (s : string) : nat :=
  match s with
  | String c s' => if isDigitChar c then S (countDigits s') else O
  | EmptyString => O
  end.

(** [leadingInt(s)]: the number made of the leading digits and the rest
    of [s]; an error when the number passes [1<<63]. *)
Fixpoint leadingInt (s : string) (x : Z) : option (Z * string) :=
  match s with
  | String c s' =>
      if isDigitChar c then
        if 2 ^ 63 / 10 <? x then None
        else
          let x := x * 10 + code c - 48 in
          if 2 ^ 63 <? x then None else leadingInt s' x
      else Some (x, s)
  | EmptyString => Some (x, s)
  end.

(** [atoi(s)]: an optional sign, then digits up to the end of [s]. *)
Definition atoi (s : string) : option Z :=
  let '(neg, s) :=
    match s with
    | String c s' =>
        if Ascii.eqb c "-" then (true, s')
        else if Ascii.eqb c "+" then (false, s')
        else (false, s)
    | EmptyString => (false, s)
    end in
  '(q, rem) <- leadingInt s 0 ;;
  if negb (Nat.eqb (String.length rem) 0) then None
  else Some (if neg then - q else q).

(** [commaOrPeriod(b)]. *)
Definition commaOrPeriod (s : string) (i : nat) : bool :=
  byteIs s i "." || byteIs s i ",".

(** [parseNanoseconds(value, nbytes)]: the fraction [value[:nbytes]]
    (a separator and digits) as nanoseconds; digits beyond the ninth are
    dropped. *)
Definition parseNanoseconds (value : string) (nbytes : nat) : option Z :=
  if negb (commaOrPeriod value 0) then None
  else
    let nbytes := if Nat.ltb 10 nbytes then 10%nat else nbytes in
    ns <- atoi (substring 1 (nbytes - 1) value) ;;
    if ns <? 0 then None
    else Some (ns * 10 ^ Z.of_nat (10 - nbytes)).

(** The instant [t] moved back by [zoneOffset] seconds and presented in
    the zone of that offset ([t.addSec(-zoneOffset)], then [t.setLoc]). *)
Definition inZone (t : Time) (zoneOffset : Z) : Time :=
  mkTime (unixSec t - zoneOffset) (nsec t) zoneOffset.

(** [parseRFC3339(s, Local)]: the strict fast path that [Parse] tries
    first for the layout [RFC3339]. *)
Definition parseRFC3339 (s : string) : option Time :=
  if Nat.ltb (String.length s) 19 then None
  else
    year <- parseUint (substring 0 4 s) 0 9999 ;;
    month <- parseUint (substring 5 2 s) 1 12 ;;
    day <- parseUint (substring 8 2 s) 1 (daysIn month year) ;;
    hour <- parseUint (substring 11 2 s) 0 23 ;;
    min <- parseUint (substring 14 2 s) 0 59 ;;
    sec <- parseUint (substring 17 2 s) 0 59 ;;
    if negb (byteIs s 4 "-" && byteIs s 7 "-" && byteIs s 10 "T"
             && byteIs s 13 ":" && byteIs s 16 ":") then None
    else
      let s := drop 19 s in
      let '(nsec, s) :=
        if Nat.leb 2 (String.length s) && byteIs s 0 "." && isDigit s 1 then
          let n := (2 + countDigits (drop 2 s))%nat in
          (match parseNanoseconds s n with Some ns => ns | None => 0 end,
           drop n s)
        else (0, s) in
      let t := Date year month day hour min sec nsec in
      if Nat.eqb (String.length s) 1 && byteIs s 0 "Z" then Some t
      else if negb (Nat.eqb (String.length s) 6) then None
      else
        hr <- parseUint (substring 1 2 s) 0 23 ;;
        mm <- parseUint (substring 4 2 s) 0 59 ;;
        if negb ((byteIs s 0 "-" || byteIs s 0 "+") && byteIs s 3 ":") then None
        else
          let zoneOffset := (hr * 60 + mm) * 60 in
          let zoneOffset := if byteIs s 0 "-" then - zoneOffset else zoneOffset in
          Some (inZone t zoneOffset).

(** [getnum(s, fixed)]: a one- or two-digit number at the head of [s];
    when [fixed], two digits are required. *)
Definition getnum (s : string) (fixed : bool) : option (Z * string) :=
  if negb (isDigit s 0) then None
  else if negb (isDigit s 1) then
    if fixed then None else Some (digitAt s 0, drop 1 s)
  else Some (digitAt s 0 * 10 + digitAt s 1, drop 2 s).

(** [skip(value, prefix)] for a one-byte prefix other than a space: the
    literal text between two fields of the layout. *)
Definition skip (value : string) (c : ascii) : option string :=
  match value with
  | String c' rest => if Ascii.eqb c' c then Some rest else None
  | EmptyString => None
  end.

(** The zone field [Z07:00] of the general parser: [Z], or a sign, two
    digits, a colon and two digits; hours up to 24 and minutes up to 60
    pass its range test.  The result is the offset in seconds, [None]
    standing for [Z], and the rest of the input. *)
Definition parseZone (value : string) : option (option Z * string) :=
  if Nat.leb 1 (String.length value) && byteIs value 0 "Z" then
    Some (None, drop 1 value)
  else if Nat.ltb (String.length value) 6 then None
  else if negb (byteIs value 3 ":") then None
  else
    '(hr, _) <- getnum (substring 1 2 value) true ;;
    '(mm, _) <- getnum (substring 4 2 value) true ;;
    if (24 <? hr) || (60 <? mm) then None
    else
      let zoneOffset := (hr * 60 + mm) * 60 in
      if byteIs value 0 "+" then Some (Some zoneOffset, drop 6 value)
      else if byteIs value 0 "-" then Some (Some (- zoneOffset), drop 6 value)
      else None.

(** The general parser [parse(layout, value, UTC, Local)] run on the
    layout [2006-01-02T15:04:05Z07:00], field by field in the order of
    the layout.  It is more lenient than the fast path: a one-digit hour,
    a comma before the fraction of the second, and zone offsets of
    24 hours or 60 minutes are accepted. *)
Definition parseLayoutRFC3339 (value : string) : option Time :=
  (* 2006 *)
  if Nat.ltb (String.length value) 4 || negb (isDigit value 0) then None
  else
    year <- atoi (substring 0 4 value) ;;
    let value := drop 4 value in
    (* -01 *)
    value <- skip value "-" ;;
    '(month, value) <- getnum value true ;;
    if (month <=? 0) || (12 <? month) then None
    else
      (* -02 *)
      value <- skip value "-" ;;
      '(day, value) <- getnum value true ;;
      (* T15 *)
      value <- skip value "T" ;;
      '(hour, value) <- getnum value false ;;
      if (hour <? 0) || (24 <=? hour) then None
      else
        (* :04 *)
        value <- skip value ":" ;;
        '(min, value) <- getnum value true ;;
        if (min <? 0) || (60 <=? min) then None
        else
          (* :05, and a fraction of the second that the layout does not
             have *)
          value <- skip value ":" ;;
          '(sec, value) <- getnum value true ;;
          if (sec <? 0) || (60 <=? sec) then None
          else
            '(nsec, value) <-
              (if Nat.leb 2 (String.length value) && commaOrPeriod value 0
                  && isDigit value 1 then
                 let n := (2 + countDigits (drop 2 value))%nat in
                 ns <- parseNanoseconds value n ;;
                 Some (ns, drop n value)
               else Some (0, value)) ;;
            (* Z07:00 *)
            '(zone, value) <- parseZone value ;;
            (* extra text *)
            if negb (Nat.eqb (String.length value) 0) then None
            (* day out of range *)
            else if (day <? 1) || (daysIn month year <? day) then None
            else
              let t := Date year month day hour min sec nsec in
              match zone with
              | None => Some t
              | Some zoneOffset => Some (inZone t zoneOffset)
              end.

(** [t.Format(layout)], which runs [appendFormatRFC3339] for the layout
    [RFC3339]. *)
Definition Format (t : Time) (layout : Layout) : string :=
  match layout with
  | RFC3339 => appendFormatRFC3339 t
  end.

(** [time.Parse(layout, value)]: for the layout [RFC3339] the fast path,
    and the general parser when the fast path rejects the value. *)
Definition Parse (layout : Layout) (value : string) : option Time :=
  match layout with
  | RFC3339 =>
      match parseRFC3339 value with
      | Some t => Some t
      | None => parseLayoutRFC3339 value
      end
  end.

End GoTime.

Import GoTime.

(** ** Package [mail]: delivery labels *)

(** [DeliveryStatePending] indicates a message has been durably written but
    not yet acknowledged by a worker/recipient. *)
Definition DeliveryStatePending : string := "pending".
(** [DeliveryStateAcked] indicates receipt has been acknowledged. *)
Definition DeliveryStateAcked : string := "acked".

(** Label keys used for two-phase delivery tracking. *)
Definition DeliveryLabelPending : string := "delivery:pending".
Definition DeliveryLabelAcked : string := "delivery:acked".
Definition DeliveryLabelAckedByPrefix : string := "delivery-acked-by:".
Definition DeliveryLabelAckedAtPrefix : string := "delivery-acked-at:".

(** [DeliverySendLabels] returns labels written during phase-1 (send). *)
Definition DeliverySendLabels (_ : unit) : list string :=
  [DeliveryLabelPending].

(** [DeliveryAckLabelSequence] returns labels for phase-2 (ack), in the
    order in which they are to be written. *)
Definition DeliveryAckLabelSequence (recipientIdentity : string) (at' : Time)
  : list string :=
  let ackedAt := Format (UTC at') RFC3339 in
  [ DeliveryLabelAckedByPrefix ++ recipientIdentity;
    DeliveryLabelAckedAtPrefix ++ ackedAt;
    DeliveryLabelAcked ].

(** The local variables of [ParseDeliveryLabels]: the two flags and the
    named results [ackedBy] and [ackedAt] (a [*time.Time], [nil] being
    [None]). *)
Record scan : Type := mkScan {
  hasPending : bool;
  hasAcked : bool;
  ackedBy : string;
  ackedAt : option Time
}.

(** The state before the loop: both flags false, the results zero. *)
Definition scanStart : scan := mkScan false false "" None.

(** One iteration of the loop: the [switch] on the label, its cases tried
    in order. *)
Definition scanLabel (st : scan) (label : string) : scan :=
  if String.eqb label DeliveryLabelPending then
    mkScan true (hasAcked st) (ackedBy st) (ackedAt st)
  else if String.eqb label DeliveryLabelAcked then
    mkScan (hasPending st) true (ackedBy st) (ackedAt st)
  else if HasPrefix label DeliveryLabelAckedByPrefix then
    mkScan (hasPending st) (hasAcked st)
           (TrimPrefix label DeliveryLabelAckedByPrefix) (ackedAt st)
  else if HasPrefix label DeliveryLabelAckedAtPrefix then
    let ts := TrimPrefix label DeliveryLabelAckedAtPrefix in
    match Parse RFC3339 ts with
    | Some t => mkScan (hasPending st) (hasAcked st) (ackedBy st) (Some t)
    | None => st
    end
  else st.

(** The loop [for _, label := range labels]. *)
Definition scanLabels (st : scan) (labels : list string) : scan :=
  fold_left scanLabel labels st.

(** [ParseDeliveryLabels] derives delivery state and ack metadata from
    labels; the result is the triple [(state, ackedBy, ackedAt)]. *)
Definition ParseDeliveryLabels (labels : list string)
  : string * string * option Time :=
  let st := scanLabels scanStart labels in
  if hasAcked st then (DeliveryStateAcked, ackedBy st, ackedAt st)
  else if hasPending st then (DeliveryStatePending, "", None)
  else ("", "", None).

(** The three components of the result. *)
Definition stateOf (r : string * string * option Time) : string := fst (fst r).
Definition ackedByOf (r : string * string * option Time) : string := snd (fst r).
Definition ackedAtOf (r : string * string * option Time) : option Time := snd r.

(** ** The label set as the specification reads it

    The specification speaks of the keyed label "last seen in scan order"
    and of the value that "wins".  The definitions below say this by
    recursion from the end of the list, independently of the loop of
    [ParseDeliveryLabels]. *)

(** The value of a keyed label: what follows [prefix], for a label that
    starts with it. *)
Definition keyedValue (prefix label : string) : option string :=
  if HasPrefix label prefix then Some (TrimPrefix label prefix) else None.

(** The value of the last label of [labels] that starts with [prefix]. *)
Fixpoint lastSeen (prefix : string) (labels : list string) : option string :=
  match labels with
  | [] => None
  | label :: rest =>
      match lastSeen prefix rest with
      | Some v => Some v
      | None => keyedValue prefix label
      end
  end.

(** The time of the last [delivery-acked-at:] label of [labels] whose value
    parses. *)
Fixpoint lastParsedAt (labels : list string) : option Time :=
  match labels with
  | [] => None
  | label :: rest =>
      match lastParsedAt rest with
      | Some t => Some t
      | None =>
          match keyedValue DeliveryLabelAckedAtPrefix label with
          | Some v => Parse RFC3339 v
          | None => None
          end
      end
  end.

(** A timestamp "with a trailing [Z]": the last byte of [v] is [Z]. *)
Definition trailingZ (v : string) : bool :=
  match String.length v with
  | O => false
  | S n => byteIs v n "Z"
  end.

(** A label the [switch] of [ParseDeliveryLabels] has no case for. *)
Definition unrecognized (label : string) : Prop :=
  label <> DeliveryLabelPending /\
  label <> DeliveryLabelAcked /\
  HasPrefix label DeliveryLabelAckedByPrefix = false /\
  HasPrefix label DeliveryLabelAckedAtPrefix = false.

(** ** Checking a property on a range of numbers

    The month tables of the calendar are checked day by day. *)

(** [p] holds of the [count] numbers from [start] on. *)
Fixpoint allFrom (p : Z -> bool) (start : Z) (count : nat) : bool :=
  match count with
  | O => true
  | S n => p start && allFrom p (start + 1) n
  end.

(** Day [yday] of a year falls on a day that exists in its month, and the
    days before that month and the day of the month add up to [yday]
    again, as [Date] adds them. *)
Definition monthDayOk (leap : bool) (yday : Z) : bool :=
  let '(month, day) := monthDay leap yday in
  (1 <=? month) && (month <=? 12) && (1 <=? day)
  && (day <=? (if (month =? 2) && leap then 29
               else daysBefore month - daysBefore (month - 1)))
  && (daysBefore (month - 1) + (if leap && (3 <=? month) then 1 else 0)
      + (day - 1) =? yday).

(** ** Package [cmd]: the wasteland commands

    Of [internal/cmd/wl.go], the pure parts: [escapeSQLString], the SQL
    texts that [runWlClaim], [runWlDone] and [queryWantedItem] build with
    it, and [generateCompletionID].  Running [dolt], the workspace lookups
    and the JSON decoding are input and output of other packages and are
    not modelled. *)

Definition wlCommonsDB : string := "wl-commons".

(** [strings.ReplaceAll(s, old, new)] for an [old] of the one byte [c]:
    every byte [c] of [s] gives way to [new], from left to right. *)
Fixpoint ReplaceAllByte (s : string) (c : ascii) (new : string) : string :=
  match s with
  | EmptyString => EmptyString
  | String b s' =>
      if Ascii.eqb b c then new ++ ReplaceAllByte s' c new
      else String b (ReplaceAllByte s' c new)
  end.

(** [escapeSQLString] escapes single quotes in SQL string values. *)
Definition escapeSQLString (s : string) : string :=
  ReplaceAllByte s "'" "''".

(** The [query] of [runWlClaim]: [fmt.Sprintf] fills the three [%s] of its
    format with the database name and the two escaped arguments. *)
Definition runWlClaim_query (townName wantedID : string) : string :=
  "USE `" ++ wlCommonsDB
  ++ "`; UPDATE wanted SET claimed_by='" ++ escapeSQLString townName
  ++ "', status='claimed', updated_at=NOW() WHERE id='" ++ escapeSQLString wantedID
  ++ "' AND status='open'".

(** The [query] of [runWlDone], with the global [wlDoneEvidence] as the
    argument [evidence]. *)
Definition runWlDone_query (completionID wantedID townName evidence : string)
  : string :=
  "USE `" ++ wlCommonsDB ++ "`; "
  ++ "INSERT INTO completions (id, wanted_id, completed_by, evidence, completed_at) "
  ++ "VALUES ('" ++ escapeSQLString completionID
  ++ "', '" ++ escapeSQLString wantedID
  ++ "', '" ++ escapeSQLString townName
  ++ "', '" ++ escapeSQLString evidence
  ++ "', NOW()); "
  ++ "UPDATE wanted SET status='in_review', evidence_url='" ++ escapeSQLString evidence
  ++ "', updated_at=NOW() WHERE id='" ++ escapeSQLString wantedID
  ++ "'".

(** The [query] of [queryWantedItem]. *)
Definition queryWantedItem_query (wantedID : string) : string :=
  "USE `" ++ wlCommonsDB
  ++ "`; SELECT id, title, status, COALESCE(claimed_by, '') as claimed_by FROM wanted WHERE id='"
  ++ escapeSQLString wantedID ++ "'".

(** The array type [[32]byte] of a SHA-256 sum. *)
Definition Bytes32 : Type := { h : list ascii | List.length h = 32%nat }.

(** The digit of value [n] in lower-case hexadecimal. *)
Definition hexChar (n : nat) : ascii :=
  match String.get n "0123456789abcdef" with
  | Some c => c
  | None => "0"%char
  end.

(** The verb [%x] of [fmt] on a byte slice: two lower-case hexadecimal
    digits for each byte. *)
Fixpoint hexString (bs : list ascii) : string :=
  match bs with
  | [] => EmptyString
  | b :: bs' =>
      String (hexChar (nat_of_ascii b / 16))
        (String (hexChar (nat_of_ascii b mod 16)) (hexString bs'))
  end.

Section CompletionID.

(** [sha256.Sum256], of the package [crypto/sha256]. *)
Variable Sum256 : string -> Bytes32.

(** [generateCompletionID] creates a completion ID from components; the
    reading [time.Now()] of the clock is the argument [now]. *)
Definition generateCompletionID (wantedID townHandle : string) (now : Time)
  : string :=
  let now := Format (UTC now) RFC3339 in
  let h := Sum256 (wantedID ++ "|" ++ townHandle ++ "|" ++ now) in
  "c-" ++ hexString (firstn 8 (proj1_sig h)).

End CompletionID.

(** ** SQL text as a reader of string literals sees it

    In SQL a string literal runs from a single quote to the next single
    quote, and a quote inside the literal is written twice.  [sqlLiterals]
    reads a text by this rule alone (a backslash is a character like any
    other) and returns the values of its literals in order; [inside] says
    whether the text starts within a literal.  A literal left open at the
    end of the text is an error. *)
Fixpoint sqlLiterals (inside : bool) (s : string) : option (list string) :=
  match s with
  | EmptyString => if inside then None else Some []
  | String c s' =>
      if inside then
        if Ascii.eqb c "'" then
          match s' with
          | String c' s'' =>
              if Ascii.eqb c' "'" then
                match sqlLiterals true s'' with
                | Some (v :: vs) => Some (String "'" v :: vs)
                | _ => None
                end
              else option_map (cons EmptyString) (sqlLiterals false s')
          | EmptyString => Some [EmptyString]
          end
        else
          match sqlLiterals true s' with
          | Some (v :: vs) => Some (String c v :: vs)
          | _ => None
          end
      else if Ascii.eqb c "'" then sqlLiterals true s'
      else sqlLiterals false s'
  end.

(** How many bytes of [s] are [c]. *)
Fixpoint countByte (c : ascii) (s : string) : nat :=
  match s with
  | EmptyString => O
  | String b s' => if Ascii.eqb b c then S (countByte c s') else countByte c s'
  end.

(** A lower-case hexadecimal digit. *)
Definition isLowerHex (c : ascii) : bool :=
  match String.index 0 (String c EmptyString) "0123456789abcdef" with
  | Some _ => true
  | None => false
  end.

(** Every byte of [s] satisfies [p]. *)
Fixpoint allBytes (p : ascii -> bool) (s : string) : bool :=
  match s with
  | EmptyString => true
  | String b s' => p b && allBytes p s'
  end.

(** * Properties *)

(** ** Strings *)

Lemma HasPrefix_app (p v : string) : HasPrefix (p ++ v) p = true.
Proof.
  unfold HasPrefix. induction p as [|c p IH]; simpl.
  - now destruct v.
  - destruct (ascii_dec c c) as [_|N]; [exact IH | now elim N].
Qed.

Lemma drop_app (p v : string) : drop (String.length p) (p ++ v) = v.
Proof. induction p as [|c p IH]; simpl; [reflexivity | exact IH]. Qed.

Lemma TrimPrefix_app (p v : string) : TrimPrefix (p ++ v) p = v.
Proof. unfold TrimPrefix. now rewrite HasPrefix_app, drop_app. Qed.

(** A string that has prefix [p] is [p] followed by what [TrimPrefix]
    leaves. *)
Lemma HasPrefix_split (s p : string) :
  HasPrefix s p = true -> s = p ++ TrimPrefix s p.
Proof.
  unfold TrimPrefix. intros H. rewrite H. unfold HasPrefix in H.
  revert s H. induction p as [|c p IH]; intros s H.
  - reflexivity.
  - destruct s as [|c' s]; simpl in H; [discriminate|].
    destruct (ascii_dec c c') as [->|]; [|discriminate].
    simpl. f_equal. now apply IH.
Qed.

Lemma keyedValue_app (p v : string) : keyedValue p (p ++ v) = Some v.
Proof. unfold keyedValue. now rewrite HasPrefix_app, TrimPrefix_app. Qed.

(** ** The calendar of the [time] model *)

(** A quotient by a positive number, between its two bounds. *)
Lemma div_bounds (a b : Z) : 0 < b -> b * (a / b) <= a < b * (a / b) + b.
Proof.
  intros H. pose proof (Z.mod_pos_bound a b H) as B.
  rewrite Z.mod_eq in B by lia. lia.
Qed.

(** Replace the quotient [a / b] by a variable that has these bounds. *)
Ltac name_div a b :=
  let q := fresh "q" in
  let H := fresh "Hq" in
  pose proof (div_bounds a b ltac:(lia)) as H;
  generalize dependent (a / b); intros q H.

Ltac calendar_constants :=
  unfold daysPer400Years, daysPer100Years, daysPer4Years;
  change (365 * 400 + 97) with 146097;
  change (365 * 100 + 24) with 36524;
  change (365 * 4 + 1) with 1461.

(** The days up to January 1 of the year and the day within the year add
    up to the day number. *)
Lemma absYearDay_sum (d : Z) : daysSinceEpoch (fst (absYearDay d)) + snd (absYearDay d) = d.
Proof.
  unfold absYearDay, daysSinceEpoch. calendar_constants.
  cbv zeta. cbn [fst snd]. rewrite !Z.shiftr_div_pow2 by lia.
  change (2 ^ 2) with 4.
  name_div d 146097.
  name_div (d - 146097 * q) 36524.
  name_div q0 4.
  name_div (d - 146097 * q - 36524 * (q0 - q1)) 1461.
  name_div (d - 146097 * q - 36524 * (q0 - q1) - 1461 * q2) 365.
  name_div q3 4.
  replace (400 * q + 100 * (q0 - q1) + 4 * q2 + (q3 - q4) + 1 - 1)
    with (400 * q + 100 * (q0 - q1) + 4 * q2 + (q3 - q4)) by lia.
  set (y := 400 * q + 100 * (q0 - q1) + 4 * q2 + (q3 - q4)).
  assert (y / 400 = q) as -> by (symmetry; apply Z.div_unique with (r := y - 400 * q); subst y; lia).
  assert ((y - 400 * q) / 100 = q0 - q1) as ->
    by (symmetry; apply Z.div_unique with (r := 4 * q2 + (q3 - q4)); subst y; lia).
  assert ((y - 400 * q - 100 * (q0 - q1)) / 4 = q2) as ->
    by (symmetry; apply Z.div_unique with (r := q3 - q4); subst y; lia).
  subst y. lia.
Qed.

(** The day within the year is a day of that year. *)
Lemma absYearDay_range (d : Z) :
  0 <= snd (absYearDay d) < 365 + (if isLeap (fst (absYearDay d)) then 1 else 0).
Proof.
  unfold absYearDay, isLeap. calendar_constants.
  cbv zeta. cbn [fst snd]. rewrite !Z.shiftr_div_pow2 by lia.
  change (2 ^ 2) with 4.
  name_div d 146097.
  name_div (d - 146097 * q) 36524.
  name_div q0 4.
  name_div (d - 146097 * q - 36524 * (q0 - q1)) 1461.
  name_div (d - 146097 * q - 36524 * (q0 - q1) - 1461 * q2) 365.
  name_div q3 4.
  set (y := 400 * q + 100 * (q0 - q1) + 4 * q2 + (q3 - q4) + 1).
  assert (E4 : y mod 4 = (q3 - q4 + 1) mod 4).
  { subst y. replace (400 * q + 100 * (q0 - q1) + 4 * q2 + (q3 - q4) + 1)
      with ((q3 - q4 + 1) + (100 * q + 25 * (q0 - q1) + q2) * 4) by lia.
    apply Z.mod_add. lia. }
  assert (E100 : y mod 100 = (4 * q2 + (q3 - q4) + 1) mod 100).
  { subst y. replace (400 * q + 100 * (q0 - q1) + 4 * q2 + (q3 - q4) + 1)
      with ((4 * q2 + (q3 - q4) + 1) + (4 * q + (q0 - q1)) * 100) by lia.
    apply Z.mod_add. lia. }
  assert (E400 : y mod 400 = (100 * (q0 - q1) + 4 * q2 + (q3 - q4) + 1) mod 400).
  { subst y. replace (400 * q + 100 * (q0 - q1) + 4 * q2 + (q3 - q4) + 1)
      with ((100 * (q0 - q1) + 4 * q2 + (q3 - q4) + 1) + q * 400) by lia.
    apply Z.mod_add. lia. }
  rewrite E4, E100, E400. clearbody y. clear E4 E100 E400.
  match goal with |- context [if ?b then _ else _] => destruct b eqn:E end.
  - lia.
  - rewrite andb_false_iff, orb_false_iff, negb_false_iff, !Z.eqb_neq, Z.eqb_eq in E.
    Z.div_mod_to_equations. lia.
Qed.

Lemma allFrom_spec (p : Z -> bool) (count : nat) (start : Z) :
  allFrom p start count = true ->
  forall k, start <= k < start + Z.of_nat count -> p k = true.
Proof.
  revert start. induction count as [|n IH]; intros start H k Hk.
  - simpl in Hk. lia.
  - cbn [allFrom] in H. apply andb_true_iff in H as [H0 H1].
    destruct (Z.eq_dec k start) as [->|Hne]; [exact H0|].
    apply (IH (start + 1) H1). lia.
Qed.

Lemma monthDay_ok (leap : bool) (yday : Z) :
  0 <= yday < 365 + (if leap then 1 else 0) -> monthDayOk leap yday = true.
Proof.
  intros H. destruct leap.
  - apply (allFrom_spec (monthDayOk true) 366 0); [vm_compute; reflexivity | lia].
  - apply (allFrom_spec (monthDayOk false) 365 0); [vm_compute; reflexivity | lia].
Qed.

(** The civil date of a day number is a date of the calendar, and [Date]
    counts its days back to the day number. *)
Lemma absDate_valid (d : Z) :
  let '(year, month, day) := absDate d in
  1 <= month <= 12 /\ 1 <= day <= daysIn month year /\
  daysSinceEpoch year + daysBefore (month - 1)
  + (if isLeap year && (3 <=? month) then 1 else 0) + (day - 1) = d.
Proof.
  unfold absDate.
  pose proof (absYearDay_sum d) as Hs. pose proof (absYearDay_range d) as Hr.
  destruct (absYearDay d) as [year yday]. cbn [fst snd] in Hs, Hr.
  pose proof (monthDay_ok _ _ Hr) as Hok. unfold monthDayOk in Hok.
  destruct (monthDay (isLeap year) yday) as [month day].
  rewrite !andb_true_iff, !Z.leb_le, Z.eqb_eq in Hok.
  unfold daysIn. lia.
Qed.

Lemma clock_valid (t : Time) :
  let '(hour, min, sec) := clock t in
  0 <= hour <= 23 /\ 0 <= min <= 59 /\ 0 <= sec <= 59 /\
  hour * secondsPerHour + min * secondsPerMinute + sec = abs t mod secondsPerDay.
Proof.
  unfold clock, secondsPerDay, secondsPerHour, secondsPerMinute. cbv zeta.
  change (24 * (60 * 60)) with 86400. change (60 * 60) with 3600.
  pose proof (Z.mod_pos_bound (abs t) 86400 ltac:(lia)) as B.
  set (s := abs t mod 86400) in *. clearbody s.
  name_div s 3600.
  name_div (s - q * 3600) 60.
  lia.
Qed.

(** [Date] on fields that are in range. *)
Lemma Date_in_range (year month day hour min sec : Z) :
  1 <= month <= 12 -> 0 <= hour <= 23 -> 0 <= min <= 59 -> 0 <= sec <= 59 ->
  Date year month day hour min sec 0
  = mkTime ((daysSinceEpoch year + daysBefore (month - 1)
             + (if isLeap year && (3 <=? month) then 1 else 0) + (day - 1))
            * secondsPerDay
            + (hour * secondsPerHour + min * secondsPerMinute + sec)
            - unixToInternal) 0 0.
Proof.
  intros Hm Hh Hmi Hs. unfold Date, norm. cbv beta iota zeta.
  change (0 / 1000000000) with 0. change (0 mod 1000000000) with 0.
  rewrite (Z.div_small (month - 1) 12), (Z.mod_small (month - 1) 12) by lia.
  rewrite !Z.add_0_r.
  rewrite (Z.div_small sec 60), (Z.mod_small sec 60) by lia.
  rewrite !Z.add_0_r.
  rewrite (Z.div_small min 60), (Z.mod_small min 60) by lia.
  rewrite !Z.add_0_r.
  rewrite (Z.div_small hour 24), (Z.mod_small hour 24) by lia.
  rewrite !Z.add_0_r. replace (month - 1 + 1) with month by lia.
  f_equal. destruct (isLeap year && (3 <=? month)); lia.
Qed.

(** Reading the date and clock of an instant and handing them to [Date]
    gives the instant back, without its fraction of a second. *)
Lemma Date_absDate_clock (t : Time) :
  let '(year, month, day) := absDate (abs t / secondsPerDay) in
  let '(hour, min, sec) := clock t in
  Date year month day hour min sec 0 = mkTime (unixSec t + offset t) 0 0.
Proof.
  pose proof (absDate_valid (abs t / secondsPerDay)) as Hd.
  pose proof (clock_valid t) as Hc.
  destruct (absDate _) as [[year month] day].
  destruct (clock t) as [[hour min] sec].
  destruct Hd as (Hm & Hday & Hsum). destruct Hc as (Hh & Hmi & Hs & Hclock).
  rewrite Date_in_range by assumption.
  rewrite Hsum, Hclock. f_equal.
  pose proof (Z.div_mod (abs t) secondsPerDay ltac:(discriminate)) as E.
  unfold abs in *. lia.
Qed.

Lemma code_digitChar (n : Z) : 0 <= n <= 9 -> code (digitChar n) = 48 + n.
Proof.
  intros H. unfold code, digitChar.
  rewrite N_ascii_embedding by lia. lia.
Qed.

Lemma isDigitChar_digitChar (n : Z) : 0 <= n <= 9 -> isDigitChar (digitChar n) = true.
Proof.
  intros H. unfold isDigitChar. rewrite code_digitChar by exact H.
  apply andb_true_iff. split; apply Z.leb_le; lia.
Qed.

Lemma parseUintLoop_twoDigits (u x : Z) (rest : string) :
  0 <= u < 100 ->
  parseUintLoop (String (tens u) (String (ones u) rest)) x
  = parseUintLoop rest (x * 100 + u).
Proof.
  intros H. unfold tens, ones. cbn [parseUintLoop].
  assert (0 <= u / 10 <= 9) by (name_div u 10; lia).
  assert (0 <= u mod 10 <= 9) by (pose proof (Z.mod_pos_bound u 10); lia).
  rewrite !isDigitChar_digitChar, !code_digitChar by assumption.
  f_equal. pose proof (Z.div_mod u 10). lia.
Qed.

Lemma parseUint_twoDigits (u lo hi : Z) :
  0 <= u < 100 -> lo <= u <= hi ->
  parseUint (String (tens u) (String (ones u) "")) lo hi = Some u.
Proof.
  intros H B. unfold parseUint. rewrite parseUintLoop_twoDigits by exact H.
  cbn [parseUintLoop]. 
  replace (0 * 100 + u) with u by lia.
  destruct (u <? lo) eqn:E1; [lia|]. destruct (hi <? u) eqn:E2; [lia|]. reflexivity.
Qed.

Lemma parseUint_fourDigits (u lo hi : Z) :
  0 <= u < 10000 -> lo <= u <= hi ->
  parseUint (String (tens (u / 100)) (String (ones (u / 100))
              (String (tens (u mod 100)) (String (ones (u mod 100)) "")))) lo hi
  = Some u.
Proof.
  intros H B. unfold parseUint.
  assert (0 <= u / 100 < 100) by (name_div u 100; lia).
  assert (0 <= u mod 100 < 100) by (apply Z.mod_pos_bound; lia).
  rewrite !parseUintLoop_twoDigits by assumption.
  cbn [parseUintLoop].
  replace ((0 * 100 + u / 100) * 100 + u mod 100) with u
    by (pose proof (Z.div_mod u 100); lia).
  destruct (u <? lo) eqn:E1; [lia|]. destruct (hi <? u) eqn:E2; [lia|]. reflexivity.
Qed.

Lemma appendInt_2 (x : Z) :
  0 <= x < 100 -> appendInt x 2 = String (tens x) (String (ones x) "").
Proof.
  intros H. unfold appendInt.
  destruct (x <? 0) eqn:E; [lia|]. rewrite Z.abs_eq by lia.
  destruct (x <? 100) eqn:E'; [reflexivity | lia].
Qed.

Lemma appendInt_4 (x : Z) :
  0 <= x < 10000 ->
  appendInt x 4
  = String (tens (x / 100)) (String (ones (x / 100))
      (String (tens (x mod 100)) (String (ones (x mod 100)) ""))).
Proof.
  intros H. unfold appendInt.
  destruct (x <? 0) eqn:E; [lia|]. rewrite Z.abs_eq by lia.
  destruct (x <? 10000) eqn:E'; [reflexivity | lia].
Qed.

(** The fast path on a value of twenty bytes with the separators and the
    [Z] in place: what is left are the six numeric fields. *)
Lemma parseRFC3339_shape (y1 y2 y3 y4 m1 m2 d1 d2 h1 h2 n1 n2 s1 s2 : ascii) :
  parseRFC3339
    (String y1 (String y2 (String y3 (String y4 (String "-"
    (String m1 (String m2 (String "-"
    (String d1 (String d2 (String "T"
    (String h1 (String h2 (String ":"
    (String n1 (String n2 (String ":"
    (String s1 (String s2 "Z")))))))))))))))))))
  = match parseUint (String y1 (String y2 (String y3 (String y4 ""))))  0 9999 with
    | Some year =>
      match parseUint (String m1 (String m2 "")) 1 12 with
      | Some month =>
        match parseUint (String d1 (String d2 "")) 1 (daysIn month year) with
        | Some day =>
          match parseUint (String h1 (String h2 "")) 0 23 with
          | Some hour =>
            match parseUint (String n1 (String n2 "")) 0 59 with
            | Some min =>
              match parseUint (String s1 (String s2 "")) 0 59 with
              | Some sec => Some (Date year month day hour min sec 0)
              | None => None
              end
            | None => None
            end
          | None => None
          end
        | None => None
        end
      | None => None
      end
    | None => None
    end.
Proof. reflexivity. Qed.

Lemma daysIn_le_31 (month year : Z) : 1 <= month <= 12 -> daysIn month year <= 31.
Proof.
  intros H.
  assert (C : month = 1 \/ month = 2 \/ month = 3 \/ month = 4 \/ month = 5 \/
              month = 6 \/ month = 7 \/ month = 8 \/ month = 9 \/ month = 10 \/
              month = 11 \/ month = 12) by lia.
  unfold daysIn. apply Z.leb_le.
  repeat (destruct C as [->|C]; [now destruct (isLeap year)|]).
  subst. reflexivity.
Qed.

(** A time formatted in UTC, with a year of four digits, parses back to
    the same instant in UTC without its fraction of a second. *)
Lemma Format_Parse_roundtrip (t : Time) :
  0 <= Year (UTC t) <= 9999 ->
  Parse RFC3339 (Format (UTC t) RFC3339) = Some (TruncateSecond (UTC t)).
Proof.
  unfold Year, Format, Parse, appendFormatRFC3339.
  pose proof (Date_absDate_clock (UTC t)) as HD.
  pose proof (absDate_valid (abs (UTC t) / secondsPerDay)) as Hd.
  pose proof (clock_valid (UTC t)) as Hc.
  destruct (absDate _) as [[year month] day].
  destruct (clock (UTC t)) as [[hour min] sec].
  destruct Hd as (Hm & Hday & _). destruct Hc as (Hh & Hmi & Hs & _).
  cbn [fst snd]. intros Hy.
  pose proof (daysIn_le_31 month year Hm) as H31.
  change (offset (UTC t) =? 0) with true. cbv iota.
  rewrite appendInt_4 by lia. rewrite !appendInt_2 by lia.
  cbn [String.append].
  rewrite parseRFC3339_shape.
  rewrite parseUint_fourDigits by lia.
  rewrite !parseUint_twoDigits by lia.
  rewrite HD. unfold TruncateSecond, UTC. cbn [unixSec nsec offset].
  now rewrite Z.add_0_r.
Qed.

(** ** The labels of the vocabulary do not overlap *)

Lemma acked_by_label_cases (v : string) :
  String.eqb (DeliveryLabelAckedByPrefix ++ v) DeliveryLabelPending = false /\
  String.eqb (DeliveryLabelAckedByPrefix ++ v) DeliveryLabelAcked = false.
Proof. split; reflexivity. Qed.

Lemma acked_by_label_not_at (v : string) :
  HasPrefix (DeliveryLabelAckedByPrefix ++ v) DeliveryLabelAckedAtPrefix = false.
Proof. reflexivity. Qed.

Lemma acked_at_label_cases (v : string) :
  String.eqb (DeliveryLabelAckedAtPrefix ++ v) DeliveryLabelPending = false /\
  String.eqb (DeliveryLabelAckedAtPrefix ++ v) DeliveryLabelAcked = false /\
  HasPrefix (DeliveryLabelAckedAtPrefix ++ v) DeliveryLabelAckedByPrefix = false.
Proof. repeat split; reflexivity. Qed.

(** ** One step of the scan *)

Lemma scanLabel_pending (st : scan) :
  scanLabel st DeliveryLabelPending
  = mkScan true (hasAcked st) (ackedBy st) (ackedAt st).
Proof. reflexivity. Qed.

Lemma scanLabel_acked (st : scan) :
  scanLabel st DeliveryLabelAcked
  = mkScan (hasPending st) true (ackedBy st) (ackedAt st).
Proof. reflexivity. Qed.

Lemma scanLabel_acked_by (st : scan) (v : string) :
  scanLabel st (DeliveryLabelAckedByPrefix ++ v)
  = mkScan (hasPending st) (hasAcked st) v (ackedAt st).
Proof.
  unfold scanLabel.
  destruct (acked_by_label_cases v) as [-> ->].
  now rewrite HasPrefix_app, TrimPrefix_app.
Qed.

Lemma scanLabel_acked_at (st : scan) (v : string) :
  scanLabel st (DeliveryLabelAckedAtPrefix ++ v)
  = match Parse RFC3339 v with
    | Some t => mkScan (hasPending st) (hasAcked st) (ackedBy st) (Some t)
    | None => st
    end.
Proof.
  unfold scanLabel.
  destruct (acked_at_label_cases v) as (-> & -> & ->).
  now rewrite HasPrefix_app, TrimPrefix_app.
Qed.

Lemma scanLabel_unrecognized (st : scan) (label : string) :
  unrecognized label -> scanLabel st label = st.
Proof.
  intros (Hp & Ha & Hby & Hat). unfold scanLabel.
  apply String.eqb_neq in Hp, Ha. now rewrite Hp, Ha, Hby, Hat.
Qed.

(** The four cases of the [switch], by the shape of the label. *)
Lemma label_cases (label : string) :
  label = DeliveryLabelPending \/
  label = DeliveryLabelAcked \/
  (exists v, label = DeliveryLabelAckedByPrefix ++ v) \/
  (exists v, label = DeliveryLabelAckedAtPrefix ++ v) \/
  unrecognized label.
Proof.
  destruct (String.eqb_spec label DeliveryLabelPending) as [|Hp]; [now left|].
  destruct (String.eqb_spec label DeliveryLabelAcked) as [|Ha]; [now right; left|].
  destruct (HasPrefix label DeliveryLabelAckedByPrefix) eqn:Hby.
  { right; right; left. eexists. now apply HasPrefix_split. }
  destruct (HasPrefix label DeliveryLabelAckedAtPrefix) eqn:Hat.
  { right; right; right; left. eexists. now apply HasPrefix_split. }
  right; right; right; right. now repeat split.
Qed.

(** ** The scan as a whole *)

Lemma scanLabels_cons (st : scan) (label : string) (labels : list string) :
  scanLabels st (label :: labels) = scanLabels (scanLabel st label) labels.
Proof. reflexivity. Qed.

Lemma scanLabels_app (st : scan) (l1 l2 : list string) :
  scanLabels st (l1 ++ l2)%list = scanLabels (scanLabels st l1) l2.
Proof. apply fold_left_app. Qed.

(** Case analysis on a label, each case rewritten by its equation. *)
Ltac by_label_cases label :=
  let v := fresh "v" in
  let U := fresh "U" in
  destruct (label_cases label) as [->|[->|[[v ->]|[[v ->]|U]]]];
  [ rewrite scanLabel_pending
  | rewrite scanLabel_acked
  | rewrite scanLabel_acked_by
  | rewrite scanLabel_acked_at; destruct (Parse RFC3339 v)
  | rewrite (scanLabel_unrecognized _ _ U) ].

Lemma hasPending_scanLabel (st : scan) (label : string) :
  hasPending (scanLabel st label)
  = hasPending st || String.eqb label DeliveryLabelPending.
Proof.
  by_label_cases label; simpl;
    rewrite ?(proj1 (acked_by_label_cases _)), ?(proj1 (acked_at_label_cases _));
    rewrite ?orb_false_r, ?orb_true_r; try reflexivity.
  destruct U as [U _]. apply String.eqb_neq in U. now rewrite U, orb_false_r.
Qed.

Lemma hasAcked_scanLabel (st : scan) (label : string) :
  hasAcked (scanLabel st label)
  = hasAcked st || String.eqb label DeliveryLabelAcked.
Proof.
  by_label_cases label; simpl;
    rewrite ?(proj2 (acked_by_label_cases _)),
            ?(proj1 (proj2 (acked_at_label_cases _)));
    rewrite ?orb_false_r, ?orb_true_r; try reflexivity.
  destruct U as (_ & U & _). apply String.eqb_neq in U.
  now rewrite U, orb_false_r.
Qed.

Lemma existsb_eqb_In (x : string) (labels : list string) :
  existsb (fun label => String.eqb label x) labels = true <-> In x labels.
Proof.
  rewrite existsb_exists. split.
  - intros (y & Hy & E). apply String.eqb_eq in E. now subst.
  - intros H. exists x. split; [exact H | apply String.eqb_refl].
Qed.

Lemma hasPending_scanLabels (labels : list string) (st : scan) :
  hasPending (scanLabels st labels)
  = hasPending st
    || existsb (fun label => String.eqb label DeliveryLabelPending) labels.
Proof.
  revert st. induction labels as [|label labels IH]; intros st; simpl.
  - now rewrite orb_false_r.
  - fold (scanLabels (scanLabel st label) labels).
    now rewrite IH, hasPending_scanLabel, orb_assoc.
Qed.

Lemma hasAcked_scanLabels (labels : list string) (st : scan) :
  hasAcked (scanLabels st labels)
  = hasAcked st
    || existsb (fun label => String.eqb label DeliveryLabelAcked) labels.
Proof.
  revert st. induction labels as [|label labels IH]; intros st; simpl.
  - now rewrite orb_false_r.
  - fold (scanLabels (scanLabel st label) labels).
    now rewrite IH, hasAcked_scanLabel, orb_assoc.
Qed.

(** The acked flag after the scan says whether [delivery:acked] is among
    the labels, and likewise the pending flag. *)
Lemma hasAcked_iff (labels : list string) :
  hasAcked (scanLabels scanStart labels) = true <-> In DeliveryLabelAcked labels.
Proof. rewrite hasAcked_scanLabels. simpl. apply existsb_eqb_In. Qed.

Lemma hasPending_iff (labels : list string) :
  hasPending (scanLabels scanStart labels) = true
  <-> In DeliveryLabelPending labels.
Proof. rewrite hasPending_scanLabels. simpl. apply existsb_eqb_In. Qed.

Lemma hasAcked_false (labels : list string) :
  ~ In DeliveryLabelAcked labels ->
  hasAcked (scanLabels scanStart labels) = false.
Proof.
  intros H. destruct (hasAcked _) eqn:E; [|reflexivity].
  now apply hasAcked_iff in E.
Qed.

Lemma hasPending_false (labels : list string) :
  ~ In DeliveryLabelPending labels ->
  hasPending (scanLabels scanStart labels) = false.
Proof.
  intros H. destruct (hasPending _) eqn:E; [|reflexivity].
  now apply hasPending_iff in E.
Qed.

(** The derived state is [acked] exactly when [delivery:acked] is among
    the labels. *)
Lemma state_acked_iff (labels : list string) :
  stateOf (ParseDeliveryLabels labels) = DeliveryStateAcked
  <-> In DeliveryLabelAcked labels.
Proof.
  rewrite <- hasAcked_iff. unfold ParseDeliveryLabels.
  destruct (hasAcked _); [now split|].
  destruct (hasPending _); split; discriminate.
Qed.

(** ** Pending precedence *)

(** C1. A label list that contains [delivery:pending] and does not contain
    [delivery:acked] derives the state [pending] with an empty [ackedBy]
    and a nil [ackedAt], whatever other labels it holds, the keyed
    [delivery-acked-by:] and [delivery-acked-at:] labels included. *)
Theorem C1_pending_precedence (labels : list string) :
  In DeliveryLabelPending labels ->
  ~ In DeliveryLabelAcked labels ->
  ParseDeliveryLabels labels = (DeliveryStatePending, "", None).
Proof.
  intros Hp Ha. unfold ParseDeliveryLabels.
  rewrite (hasAcked_false _ Ha).
  apply hasPending_iff in Hp. now rewrite Hp.
Qed.

Lemma C1_pending_precedence_witness :
  ParseDeliveryLabels
    [ "delivery:pending"; "delivery-acked-by:gastown/worker";
      "delivery-acked-at:2026-02-17T12:00:00Z" ]
  = ("pending", "", None).
Proof.
  apply C1_pending_precedence.
  - simpl. left. reflexivity.
  - simpl. intros [H|[H|[H|H]]]; try discriminate H. exact H.
Defined.

(** ** Append-only monotonicity *)

(** C2. A list that contains [delivery:acked] derives the state [acked],
    whether or not [delivery:pending] is present; and once a list [S]
    derives [acked], so does [S] followed by any further labels, and more
    generally every list that contains the labels of [S]: no label takes
    the state back to pending or unknown. *)
Theorem C2_acked_is_monotonic :
  (forall labels : list string,
      In DeliveryLabelAcked labels ->
      stateOf (ParseDeliveryLabels labels) = DeliveryStateAcked) /\
  (forall S more : list string,
      stateOf (ParseDeliveryLabels S) = DeliveryStateAcked ->
      stateOf (ParseDeliveryLabels (S ++ more)%list) = DeliveryStateAcked) /\
  (forall S S' : list string,
      stateOf (ParseDeliveryLabels S) = DeliveryStateAcked ->
      incl S S' ->
      stateOf (ParseDeliveryLabels S') = DeliveryStateAcked).
Proof.
  split; [|split].
  - intros labels H. now apply state_acked_iff.
  - intros S more H. apply state_acked_iff. apply state_acked_iff in H.
    apply in_or_app. now left.
  - intros S S' H Hincl. apply state_acked_iff. apply state_acked_iff in H.
    now apply Hincl.
Qed.

Lemma C2_acked_is_monotonic_witness :
  stateOf (ParseDeliveryLabels ["delivery:acked"; "delivery:pending"]) = "acked" /\
  stateOf (ParseDeliveryLabels
             (["delivery:pending"; "delivery:acked"]
              ++ ["delivery:pending"; "delivery-acked-at:later"; "other"])%list)
  = "acked" /\
  stateOf (ParseDeliveryLabels ["delivery:pending"; "x"; "delivery:acked"])
  = "acked".
Proof.
  destruct C2_acked_is_monotonic as (H1 & H2 & H3).
  split; [|split].
  - apply H1. simpl. left. reflexivity.
  - apply H2. reflexivity.
  - apply (H3 ["delivery:acked"]).
    + reflexivity.
    + intros l [<-|[]]. simpl. right. right. left. reflexivity.
Defined.

(** ** Absence of both markers *)

(** C6. A label list that contains neither [delivery:pending] nor
    [delivery:acked] (the empty list among them) derives the unknown state
    [""] with an empty [ackedBy] and a nil [ackedAt], whatever keyed or
    unrecognized labels it holds. *)
Theorem C6_unknown_without_markers (labels : list string) :
  ~ In DeliveryLabelPending labels ->
  ~ In DeliveryLabelAcked labels ->
  ParseDeliveryLabels labels = ("", "", None).
Proof.
  intros Hp Ha. unfold ParseDeliveryLabels.
  now rewrite (hasAcked_false _ Ha), (hasPending_false _ Hp).
Qed.

Lemma C6_unknown_without_markers_witness :
  ParseDeliveryLabels [] = ("", "", None) /\
  ParseDeliveryLabels
    [ "delivery-acked-by:gastown/worker";
      "delivery-acked-at:2026-02-17T12:00:00Z"; "priority:high" ]
  = ("", "", None).
Proof.
  split.
  - apply C6_unknown_without_markers; simpl; intros H; exact H.
  - apply C6_unknown_without_markers; simpl;
      intros [H|[H|[H|H]]]; try discriminate H; exact H.
Defined.

(** ** The send-phase producer *)

(** C9. [DeliverySendLabels] takes no input and returns the one-element
    sequence [delivery:pending]; any two calls return the same value. *)
Theorem C9_send_labels :
  (forall u : unit, DeliverySendLabels u = ["delivery:pending"]) /\
  (forall u u' : unit, DeliverySendLabels u = DeliverySendLabels u').
Proof. split; intros; reflexivity. Qed.

(** ** Labels that leave the scan unchanged *)

(** A label on which the loop body does nothing can be taken out of the
    list. *)
Lemma ParseDeliveryLabels_skip (pre post : list string) (label : string) :
  (forall st, scanLabel st label = st) ->
  ParseDeliveryLabels (pre ++ label :: post)%list
  = ParseDeliveryLabels (pre ++ post)%list.
Proof.
  intros H. unfold ParseDeliveryLabels.
  now rewrite !scanLabels_app, scanLabels_cons, H.
Qed.

Lemma scanLabel_malformed_at (st : scan) (v : string) :
  Parse RFC3339 v = None -> scanLabel st (DeliveryLabelAckedAtPrefix ++ v) = st.
Proof. intros H. now rewrite scanLabel_acked_at, H. Qed.

(** ** The keyed values after the scan *)

Lemma keyedValue_by_cases :
  keyedValue DeliveryLabelAckedByPrefix DeliveryLabelPending = None /\
  keyedValue DeliveryLabelAckedByPrefix DeliveryLabelAcked = None /\
  forall v, keyedValue DeliveryLabelAckedByPrefix (DeliveryLabelAckedAtPrefix ++ v)
            = None.
Proof. repeat split. Qed.

Lemma keyedValue_at_cases :
  keyedValue DeliveryLabelAckedAtPrefix DeliveryLabelPending = None /\
  keyedValue DeliveryLabelAckedAtPrefix DeliveryLabelAcked = None /\
  forall v, keyedValue DeliveryLabelAckedAtPrefix (DeliveryLabelAckedByPrefix ++ v)
            = None.
Proof. repeat split. Qed.

Lemma keyedValue_unrecognized (label : string) :
  unrecognized label ->
  keyedValue DeliveryLabelAckedByPrefix label = None /\
  keyedValue DeliveryLabelAckedAtPrefix label = None.
Proof. intros (_ & _ & Hby & Hat). unfold keyedValue. now rewrite Hby, Hat. Qed.

Lemma keyedValue_Some (prefix label v : string) :
  keyedValue prefix label = Some v -> label = prefix ++ v.
Proof.
  unfold keyedValue. destruct (HasPrefix label prefix) eqn:E; [|discriminate].
  intros [= <-]. now apply HasPrefix_split.
Qed.

Lemma ackedBy_scanLabel (st : scan) (label : string) :
  ackedBy (scanLabel st label)
  = match keyedValue DeliveryLabelAckedByPrefix label with
    | Some v => v
    | None => ackedBy st
    end.
Proof.
  destruct keyedValue_by_cases as (Kp & Ka & Kat).
  by_label_cases label;
    rewrite ?Kp, ?Ka, ?Kat, ?keyedValue_app; try reflexivity.
  now rewrite (proj1 (keyedValue_unrecognized _ U)).
Qed.

Lemma ackedAt_scanLabel (st : scan) (label : string) :
  ackedAt (scanLabel st label)
  = match match keyedValue DeliveryLabelAckedAtPrefix label with
          | Some v => Parse RFC3339 v
          | None => None
          end with
    | Some t => Some t
    | None => ackedAt st
    end.
Proof.
  destruct keyedValue_at_cases as (Kp & Ka & Kby).
  destruct (label_cases label) as [->|[->|[[v ->]|[[v ->]|U]]]].
  - now rewrite scanLabel_pending, Kp.
  - now rewrite scanLabel_acked, Ka.
  - now rewrite scanLabel_acked_by, Kby.
  - rewrite scanLabel_acked_at, keyedValue_app. now destruct (Parse RFC3339 v).
  - now rewrite (scanLabel_unrecognized _ _ U),
                (proj2 (keyedValue_unrecognized _ U)).
Qed.

(** After the loop, [ackedBy] holds the value of the last
    [delivery-acked-by:] label. *)
Lemma ackedBy_scanLabels (labels : list string) (st : scan) :
  ackedBy (scanLabels st labels)
  = match lastSeen DeliveryLabelAckedByPrefix labels with
    | Some v => v
    | None => ackedBy st
    end.
Proof.
  revert st. induction labels as [|label labels IH]; intros st.
  - reflexivity.
  - rewrite scanLabels_cons, IH, ackedBy_scanLabel. simpl.
    now destruct (lastSeen _ labels).
Qed.

(** After the loop, [ackedAt] holds the time of the last
    [delivery-acked-at:] label whose value parsed. *)
Lemma ackedAt_scanLabels (labels : list string) (st : scan) :
  ackedAt (scanLabels st labels)
  = match lastParsedAt labels with
    | Some t => Some t
    | None => ackedAt st
    end.
Proof.
  revert st. induction labels as [|label labels IH]; intros st.
  - reflexivity.
  - rewrite scanLabels_cons, IH, ackedAt_scanLabel. simpl.
    now destruct (lastParsedAt labels).
Qed.

(** The result for a list that holds [delivery:acked]. *)
Lemma ParseDeliveryLabels_acked (labels : list string) :
  In DeliveryLabelAcked labels ->
  ParseDeliveryLabels labels
  = ( DeliveryStateAcked,
      match lastSeen DeliveryLabelAckedByPrefix labels with
      | Some v => v
      | None => ""
      end,
      lastParsedAt labels ).
Proof.
  intros H. apply hasAcked_iff in H. unfold ParseDeliveryLabels.
  rewrite H, ackedBy_scanLabels, ackedAt_scanLabels. simpl.
  now destruct (lastParsedAt labels).
Qed.

(** [lastSeen] and [lastParsedAt] read from the end of the list. *)
Lemma lastSeen_last (prefix : string) (pre post : list string) (v : string) :
  (forall label, In label post -> HasPrefix label prefix = false) ->
  lastSeen prefix (pre ++ (prefix ++ v)%string :: post)%list = Some v.
Proof.
  intros Hpost.
  assert (Hnone : lastSeen prefix post = None).
  { induction post as [|l post IH]; [reflexivity|]. simpl.
    rewrite IH by (intros; apply Hpost; now right).
    unfold keyedValue. rewrite Hpost; [reflexivity | now left]. }
  induction pre as [|l pre IH]; cbn [lastSeen List.app].
  - now rewrite Hnone, keyedValue_app.
  - now rewrite IH.
Qed.

Lemma lastParsedAt_last (pre post : list string) (v : string) (t : Time) :
  Parse RFC3339 v = Some t ->
  (forall w, In (DeliveryLabelAckedAtPrefix ++ w) post -> Parse RFC3339 w = None) ->
  lastParsedAt (pre ++ (DeliveryLabelAckedAtPrefix ++ v)%string :: post)%list = Some t.
Proof.
  intros Hv Hpost.
  assert (Hnone : lastParsedAt post = None).
  { induction post as [|l post IH]; [reflexivity|]. simpl.
    rewrite IH by (intros; apply Hpost; now right).
    destruct (keyedValue _ l) as [w|] eqn:K; [|reflexivity].
    apply keyedValue_Some in K. subst l. apply Hpost. now left. }
  induction pre as [|l pre IH]; cbn [lastParsedAt List.app].
  - now rewrite Hnone, keyedValue_app.
  - now rewrite IH.
Qed.

(** A time that [lastParsedAt] finds is the parse of the value of one of
    the [delivery-acked-at:] labels. *)
Lemma lastParsedAt_Some (labels : list string) (t : Time) :
  lastParsedAt labels = Some t ->
  exists v, In (DeliveryLabelAckedAtPrefix ++ v) labels /\ Parse RFC3339 v = Some t.
Proof.
  induction labels as [|l labels IH]; simpl; [discriminate|].
  destruct (lastParsedAt labels) as [t'|].
  - intros [= ->]. destruct (IH eq_refl) as (v & Hin & Hv).
    exists v. split; [now right | exact Hv].
  - destruct (keyedValue _ l) as [w|] eqn:K; [|discriminate].
    intros Hw. apply keyedValue_Some in K. exists w. split; [now left | exact Hw].
Qed.

Lemma lastParsedAt_None (labels : list string) :
  (forall v, In (DeliveryLabelAckedAtPrefix ++ v) labels -> Parse RFC3339 v = None) ->
  lastParsedAt labels = None.
Proof.
  intros H. destruct (lastParsedAt labels) as [t|] eqn:E; [|reflexivity].
  destruct (lastParsedAt_Some _ _ E) as (v & Hin & Hv).
  rewrite (H _ Hin) in Hv. discriminate.
Qed.

(** Whatever the labels, [ackedAt] is nil or the last parsed time. *)
Lemma ackedAtOf_ParseDeliveryLabels (labels : list string) :
  ackedAtOf (ParseDeliveryLabels labels)
  = if hasAcked (scanLabels scanStart labels) then lastParsedAt labels else None.
Proof.
  unfold ParseDeliveryLabels.
  destruct (hasAcked _) eqn:E.
  - unfold ackedAtOf. simpl. rewrite ackedAt_scanLabels.
    now destruct (lastParsedAt labels).
  - now destruct (hasPending _).
Qed.

(** ** Totality and ignored labels *)

(** C4. [ParseDeliveryLabels] returns a triple for every label list, its
    state being empty, [pending] or [acked]; a label that matches no case
    of the vocabulary has no effect on the result, and neither has a
    [delivery-acked-at:] label whose value does not parse; when no
    [delivery-acked-at:] label carries a value that parses, [ackedAt] is
    nil. *)
Theorem C4_total_and_lenient :
  (forall labels : list string,
      exists state by' at',
        ParseDeliveryLabels labels = (state, by', at') /\
        (state = "" \/ state = DeliveryStatePending \/ state = DeliveryStateAcked)) /\
  (forall (pre post : list string) (label : string),
      unrecognized label ->
      ParseDeliveryLabels (pre ++ label :: post)%list
      = ParseDeliveryLabels (pre ++ post)%list) /\
  (forall (pre post : list string) (v : string),
      Parse RFC3339 v = None ->
      ParseDeliveryLabels (pre ++ (DeliveryLabelAckedAtPrefix ++ v)%string :: post)%list
      = ParseDeliveryLabels (pre ++ post)%list) /\
  (forall labels : list string,
      (forall v, In (DeliveryLabelAckedAtPrefix ++ v) labels ->
                 Parse RFC3339 v = None) ->
      ackedAtOf (ParseDeliveryLabels labels) = None).
Proof.
  split; [|split; [|split]].
  - intros labels. unfold ParseDeliveryLabels.
    destruct (hasAcked _); [|destruct (hasPending _)];
      do 3 eexists; (split; [reflexivity|]); auto.
  - intros pre post label U. apply ParseDeliveryLabels_skip.
    intros st. now apply scanLabel_unrecognized.
  - intros pre post v H. apply ParseDeliveryLabels_skip.
    intros st. now apply scanLabel_malformed_at.
  - intros labels H. rewrite ackedAtOf_ParseDeliveryLabels.
    rewrite (lastParsedAt_None _ H). now destruct (hasAcked _).
Qed.

Lemma C4_total_and_lenient_witness :
  ParseDeliveryLabels (["delivery:pending"] ++ "priority:high" :: ["delivery:acked"])%list
  = ParseDeliveryLabels (["delivery:pending"] ++ ["delivery:acked"])%list /\
  ParseDeliveryLabels
    (["delivery:acked"] ++ ("delivery-acked-at:" ++ "yesterday")%string
                           :: ["delivery-acked-by:w"])%list
  = ParseDeliveryLabels (["delivery:acked"] ++ ["delivery-acked-by:w"])%list /\
  ackedAtOf (ParseDeliveryLabels
               ["delivery:acked"; "delivery-acked-at:"; "delivery-acked-at:17/02/2026"])
  = None.
Proof.
  destruct C4_total_and_lenient as (_ & H2 & H3 & H4).
  split; [|split].
  - apply H2. repeat split; try reflexivity; discriminate.
  - apply H3. reflexivity.
  - apply H4. simpl. intros v [H|[H|[H|H]]]; try discriminate H.
    + injection H as <-. reflexivity.
    + injection H as <-. reflexivity.
    + destruct H.
Defined.

(** ** Malformed timestamps *)

(** C5. A [delivery-acked-at:] label whose value does not parse as a
    timestamp contributes nothing: the result is the one of the list
    without that label.  In particular the list of [delivery:acked] and
    [delivery-acked-at:not-a-date] derives [acked] with a nil [ackedAt]. *)
Theorem C5_malformed_timestamp_is_absent :
  (forall (pre post : list string) (v : string),
      Parse RFC3339 v = None ->
      ParseDeliveryLabels (pre ++ (DeliveryLabelAckedAtPrefix ++ v)%string :: post)%list
      = ParseDeliveryLabels (pre ++ post)%list) /\
  Parse RFC3339 "not-a-date" = None /\
  ParseDeliveryLabels ["delivery:acked"; "delivery-acked-at:not-a-date"]
  = ("acked", "", None).
Proof.
  split; [|split].
  - intros pre post v H. apply ParseDeliveryLabels_skip.
    intros st. now apply scanLabel_malformed_at.
  - reflexivity.
  - reflexivity.
Qed.

Lemma C5_malformed_timestamp_is_absent_witness :
  ParseDeliveryLabels
    (["delivery:acked"] ++ ("delivery-acked-at:" ++ "not-a-date")%string :: [])%list
  = ParseDeliveryLabels (["delivery:acked"] ++ [])%list.
Proof.
  apply (proj1 C5_malformed_timestamp_is_absent). reflexivity.
Defined.

(** ** Duplicate keyed labels *)

(** C7, as the code has it.  For a list that holds [delivery:acked],
    [ackedBy] is the value of the last [delivery-acked-by:] label in scan
    order (empty when there is none) and [ackedAt] is the time of the last
    [delivery-acked-at:] label in scan order whose value parses (nil when
    there is none); any number of labels of one prefix is accepted. *)
Theorem C7_last_value_wins :
  (forall labels : list string,
      In DeliveryLabelAcked labels ->
      ParseDeliveryLabels labels
      = ( DeliveryStateAcked,
          match lastSeen DeliveryLabelAckedByPrefix labels with
          | Some v => v
          | None => ""
          end,
          lastParsedAt labels )) /\
  (forall (pre post : list string) (v : string),
      In DeliveryLabelAcked (pre ++ (DeliveryLabelAckedByPrefix ++ v)%string :: post)%list ->
      (forall label, In label post ->
                     HasPrefix label DeliveryLabelAckedByPrefix = false) ->
      ackedByOf (ParseDeliveryLabels
                   (pre ++ (DeliveryLabelAckedByPrefix ++ v)%string :: post)%list)
      = v).
Proof.
  split.
  - apply ParseDeliveryLabels_acked.
  - intros pre post v Hacked Hpost.
    rewrite (ParseDeliveryLabels_acked _ Hacked).
    now rewrite (lastSeen_last _ _ _ _ Hpost).
Qed.

Lemma C7_last_value_wins_witness :
  ParseDeliveryLabels
    [ "delivery-acked-by:first"; "delivery-acked-at:2026-02-17T12:00:00Z";
      "delivery:acked"; "delivery-acked-by:second"; "delivery-acked-at:garbage" ]
  = ("acked", "second", Some (mkTime 1771329600 0 0)) /\
  ackedByOf (ParseDeliveryLabels
               (["delivery-acked-by:first"; "delivery:acked"]
                ++ ("delivery-acked-by:" ++ "second")%string :: ["delivery:pending"])%list)
  = "second".
Proof.
  destruct C7_last_value_wins as (H1 & H2).
  split.
  - apply (H1 [ "delivery-acked-by:first"; "delivery-acked-at:2026-02-17T12:00:00Z";
                "delivery:acked"; "delivery-acked-by:second";
                "delivery-acked-at:garbage" ]).
    simpl. right. right. left. reflexivity.
  - apply H2.
    + simpl. right. left. reflexivity.
    + simpl. intros label [<-|H]; [reflexivity | destruct H].
Defined.

(** C7, as stated, fails for [ackedAt]: the value of the last-seen
    [delivery-acked-at:] label does not win when it is malformed.  With
    [delivery:acked], a well-formed timestamp label and then a malformed
    one, the last-seen value is [garbage], which parses to nothing, and
    [ackedAt] is the earlier time. *)
Lemma C7_last_seen_at_label_counterexample :
  ~ (forall (labels : list string) (v : string),
        In DeliveryLabelAcked labels ->
        lastSeen DeliveryLabelAckedAtPrefix labels = Some v ->
        ackedAtOf (ParseDeliveryLabels labels) = Parse RFC3339 v).
Proof.
  intros H.
  specialize (H [ "delivery:acked"; "delivery-acked-at:2026-02-17T12:00:00Z";
                  "delivery-acked-at:garbage" ] "garbage").
  assert (E : Some (mkTime 1771329600 0 0) = @None Time).
  { apply H; [simpl; left|]; reflexivity. }
  discriminate E.
Qed.

(** C10. A [delivery-acked-at:] label whose value parses, followed in scan
    order only by [delivery-acked-at:] labels whose values do not parse,
    gives [ackedAt] for an acked list: a later malformed label neither
    overwrites nor clears it.  In particular [delivery:acked], then the
    timestamp 2026-02-17T12:00:00Z, then [garbage], yields that
    timestamp. *)
Theorem C10_malformed_does_not_overwrite :
  (forall (pre post : list string) (v : string) (t : Time),
      In DeliveryLabelAcked (pre ++ (DeliveryLabelAckedAtPrefix ++ v)%string :: post)%list ->
      Parse RFC3339 v = Some t ->
      (forall w, In (DeliveryLabelAckedAtPrefix ++ w) post -> Parse RFC3339 w = None) ->
      ackedAtOf (ParseDeliveryLabels
                   (pre ++ (DeliveryLabelAckedAtPrefix ++ v)%string :: post)%list)
      = Some t) /\
  Parse RFC3339 "garbage" = None /\
  ParseDeliveryLabels
    [ "delivery:acked"; "delivery-acked-at:2026-02-17T12:00:00Z";
      "delivery-acked-at:garbage" ]
  = ("acked", "", Some (Date 2026 2 17 12 0 0 0)).
Proof.
  split; [|split]; [|reflexivity|reflexivity].
  intros pre post v t Hacked Hv Hpost.
  rewrite (ParseDeliveryLabels_acked _ Hacked).
  now rewrite (lastParsedAt_last _ _ _ _ Hv Hpost).
Qed.

Lemma C10_malformed_does_not_overwrite_witness :
  ackedAtOf (ParseDeliveryLabels
               (["delivery:acked"]
                ++ ("delivery-acked-at:" ++ "2026-02-17T12:00:00Z")%string
                   :: ["delivery-acked-at:garbage"; "delivery-acked-by:w"])%list)
  = Some (mkTime 1771329600 0 0).
Proof.
  apply (proj1 C10_malformed_does_not_overwrite).
  - simpl. left. reflexivity.
  - reflexivity.
  - simpl. intros w [H|[H|H]]; try discriminate H.
    + injection H as <-. reflexivity.
    + destruct H.
Defined.

(** ** Which timestamps are accepted *)

(** C8, as the code has it.  [ackedAt] is populated only for an acked
    list, and only with the time that [time.Parse] under the layout
    [time.RFC3339] gives for the value of one of the [delivery-acked-at:]
    labels.  That layout accepts the UTC form with a trailing [Z], and it
    accepts a numeric offset as well: 2026-02-17T12:00:00+01:00 parses to
    the instant 2026-02-17T11:00:00Z in the zone of offset one hour, and
    populates [ackedAt]. *)
Theorem C8_accepted_timestamps :
  (forall (labels : list string) (t : Time),
      ackedAtOf (ParseDeliveryLabels labels) = Some t ->
      In DeliveryLabelAcked labels /\
      exists v, In (DeliveryLabelAckedAtPrefix ++ v) labels /\
                Parse RFC3339 v = Some t) /\
  Parse RFC3339 "2026-02-17T12:00:00Z" = Some (mkTime 1771329600 0 0) /\
  Parse RFC3339 "2026-02-17T12:00:00+01:00" = Some (mkTime 1771326000 0 3600) /\
  ParseDeliveryLabels ["delivery:acked"; "delivery-acked-at:2026-02-17T12:00:00+01:00"]
  = ("acked", "", Some (mkTime 1771326000 0 3600)).
Proof.
  split; [|repeat split].
  intros labels t H. rewrite ackedAtOf_ParseDeliveryLabels in H.
  destruct (hasAcked _) eqn:E; [|discriminate].
  split; [now apply hasAcked_iff | now apply lastParsedAt_Some].
Qed.

Lemma C8_accepted_timestamps_witness :
  In DeliveryLabelAcked ["delivery:acked"; "delivery-acked-at:2026-02-17T12:00:00Z"] /\
  exists v,
    In (DeliveryLabelAckedAtPrefix ++ v)
       ["delivery:acked"; "delivery-acked-at:2026-02-17T12:00:00Z"] /\
    Parse RFC3339 v = Some (mkTime 1771329600 0 0).
Proof.
  apply (proj1 C8_accepted_timestamps). reflexivity.
Defined.

(** C8, as stated, fails: a value that carries a numeric offset, and so
    has no trailing [Z], populates [ackedAt]. *)
Lemma C8_only_trailing_Z_counterexample :
  ~ (forall (labels : list string) (t : Time),
        ackedAtOf (ParseDeliveryLabels labels) = Some t ->
        exists v, In (DeliveryLabelAckedAtPrefix ++ v) labels /\
                  Parse RFC3339 v = Some t /\ trailingZ v = true).
Proof.
  intros H.
  destruct (H ["delivery:acked"; "delivery-acked-at:2026-02-17T12:00:00+01:00"]
              (mkTime 1771326000 0 3600) eq_refl) as (v & Hin & _ & HZ).
  simpl in Hin. destruct Hin as [Hin|[Hin|[]]]; [discriminate Hin|].
  injection Hin as <-. discriminate HZ.
Qed.

(** ** The ack-phase producer *)

(** C3, as the code has it.  For every recipient and time,
    [DeliveryAckLabelSequence] returns three labels in this order: the
    recipient after [delivery-acked-by:], the time in UTC in the RFC 3339
    form after [delivery-acked-at:], and [delivery:acked].  The form of
    the time depends on its instant in whole seconds only, not on its
    zone or its fraction of a second.  When the year
    of the time in UTC has four digits (0 to 9999), the value of the
    second label parses back to the time in UTC without its fraction of a
    second.  For gastown/worker at 2026-02-17T12:00:00Z the labels are
    those of the test. *)
Theorem C3_ack_label_sequence :
  (forall (r : string) (t : Time),
      DeliveryAckLabelSequence r t
      = [ ("delivery-acked-by:" ++ r)%string;
          ("delivery-acked-at:" ++ Format (UTC t) RFC3339)%string;
          "delivery:acked" ]) /\
  (forall (r : string) (t : Time),
      nth_error (DeliveryAckLabelSequence r t) 2 = Some "delivery:acked") /\
  (forall t : Time,
      Format (UTC t) RFC3339 = Format (mkTime (unixSec t) 0 0) RFC3339) /\
  (forall (r : string) (t : Time),
      0 <= Year (UTC t) <= 9999 ->
      exists label,
        nth_error (DeliveryAckLabelSequence r t) 1 = Some label /\
        Parse RFC3339 (TrimPrefix label DeliveryLabelAckedAtPrefix)
        = Some (TruncateSecond (UTC t))) /\
  DeliveryAckLabelSequence "gastown/worker" (Date 2026 2 17 12 0 0 0)
  = [ "delivery-acked-by:gastown/worker";
      "delivery-acked-at:2026-02-17T12:00:00Z";
      "delivery:acked" ].
Proof.
  split; [|split; [|split; [|split]]]; try reflexivity.
  intros r t Hy. eexists. split; [reflexivity|].
  rewrite TrimPrefix_app. now apply Format_Parse_roundtrip.
Qed.

Lemma C3_ack_label_sequence_witness :
  exists label,
    nth_error (DeliveryAckLabelSequence "gastown/worker"
                 (mkTime 1771329600 500000000 3600)) 1 = Some label /\
    Parse RFC3339 (TrimPrefix label DeliveryLabelAckedAtPrefix)
    = Some (TruncateSecond (UTC (mkTime 1771329600 500000000 3600))).
Proof.
  apply (proj1 (proj2 (proj2 (proj2 C3_ack_label_sequence)))).
  vm_compute. split; discriminate.
Defined.

(** C3, as stated, fails for a time whose year has more than four digits:
    the first instant of the year 10000 is formatted with a five-digit
    year, which [time.Parse] rejects. *)
Lemma C3_reparse_counterexample :
  ~ (forall (r : string) (t : Time),
        Parse RFC3339
          (TrimPrefix (nth 1 (DeliveryAckLabelSequence r t) "")
                      DeliveryLabelAckedAtPrefix)
        = Some (TruncateSecond (UTC t))).
Proof.
  intros H. specialize (H "gastown/worker" (Date 10000 1 1 0 0 0 0)).
  vm_compute in H. discriminate H.
Qed.

(** ** Producers and deriver together *)

(** The state, read off the two flags of the scan. *)
Lemma stateOf_ParseDeliveryLabels (labels : list string) :
  stateOf (ParseDeliveryLabels labels)
  = if hasAcked (scanLabels scanStart labels) then DeliveryStateAcked
    else if hasPending (scanLabels scanStart labels) then DeliveryStatePending
    else EmptyString.
Proof.
  unfold ParseDeliveryLabels.
  destruct (hasAcked _); [reflexivity|]. now destruct (hasPending _).
Qed.

(** Two lists that hold the two markers alike raise the same flags. *)
Lemma flags_of_markers (l l' : list string) :
  (In DeliveryLabelAcked l <-> In DeliveryLabelAcked l') ->
  (In DeliveryLabelPending l <-> In DeliveryLabelPending l') ->
  hasAcked (scanLabels scanStart l) = hasAcked (scanLabels scanStart l') /\
  hasPending (scanLabels scanStart l) = hasPending (scanLabels scanStart l').
Proof.
  intros Ha Hp. rewrite <- !hasAcked_iff in Ha. rewrite <- !hasPending_iff in Hp.
  split; now apply eq_true_iff_eq.
Qed.

(** Without [delivery:acked] the whole result is read off the pending
    flag. *)
Lemma ParseDeliveryLabels_not_acked (labels : list string) :
  ~ In DeliveryLabelAcked labels ->
  ParseDeliveryLabels labels
  = if hasPending (scanLabels scanStart labels)
    then (DeliveryStatePending, EmptyString, None)
    else (EmptyString, EmptyString, None).
Proof.
  intros H. unfold ParseDeliveryLabels. now rewrite (hasAcked_false _ H).
Qed.

(** The labels of the ack sequence before the last one are keyed labels. *)
Lemma partial_ack_labels (r : string) (t : Time) (k : nat) (label : string) :
  (k < 3)%nat ->
  In label (firstn k (DeliveryAckLabelSequence r t)) ->
  label <> DeliveryLabelAcked /\ label <> DeliveryLabelPending.
Proof.
  intros Hk Hin.
  assert (C : label = (DeliveryLabelAckedByPrefix ++ r)%string \/
              label = (DeliveryLabelAckedAtPrefix ++ Format (UTC t) RFC3339)%string).
  { unfold DeliveryAckLabelSequence in Hin.
    destruct k as [|[|[|k]]]; cbn [firstn In] in Hin; try lia; intuition auto. }
  destruct C as [-> | ->]; split; apply String.eqb_neq.
  - apply acked_by_label_cases.
  - apply acked_by_label_cases.
  - apply acked_at_label_cases.
  - apply acked_at_label_cases.
Qed.

(** X3. Appending fewer than all three labels of an ack sequence to a
    label list leaves the derived state as it was, and leaves the whole
    result as it was when the list does not hold [delivery:acked]: an ack
    interrupted before its last label is not visible. *)
Theorem partial_ack_is_invisible (prior : list string) (r : string) (t : Time) (k : nat) :
  (k < 3)%nat ->
  stateOf (ParseDeliveryLabels (prior ++ firstn k (DeliveryAckLabelSequence r t))%list)
  = stateOf (ParseDeliveryLabels prior) /\
  (~ In DeliveryLabelAcked prior ->
   ParseDeliveryLabels (prior ++ firstn k (DeliveryAckLabelSequence r t))%list
   = ParseDeliveryLabels prior).
Proof.
  intros Hk.
  assert (F : hasAcked (scanLabels scanStart
                          (prior ++ firstn k (DeliveryAckLabelSequence r t))%list)
              = hasAcked (scanLabels scanStart prior) /\
              hasPending (scanLabels scanStart
                            (prior ++ firstn k (DeliveryAckLabelSequence r t))%list)
              = hasPending (scanLabels scanStart prior)).
  { apply flags_of_markers; rewrite in_app_iff; split; auto;
      intros [H|H]; auto; destruct (partial_ack_labels r t k _ Hk H); congruence. }
  destruct F as [Fa Fp]. split.
  - now rewrite !stateOf_ParseDeliveryLabels, Fa, Fp.
  - intros Hn. rewrite !ParseDeliveryLabels_not_acked, Fp; auto.
    rewrite in_app_iff. intros [H|H]; auto.
    destruct (partial_ack_labels r t k _ Hk H); congruence.
Qed.

Lemma partial_ack_is_invisible_witness :
  ParseDeliveryLabels
    (DeliverySendLabels tt
     ++ firstn 2 (DeliveryAckLabelSequence "gastown/worker" (Date 2026 2 17 12 0 0 0)))%list
  = ParseDeliveryLabels (DeliverySendLabels tt).
Proof.
  apply (partial_ack_is_invisible (DeliverySendLabels tt) "gastown/worker"
           (Date 2026 2 17 12 0 0 0) 2).
  - lia.
  - simpl. intros [H|H]; [discriminate H | exact H].
Defined.

(** X4. The derived state depends only on which labels occur in the
    list, not on their order or on how often they occur. *)
Theorem state_depends_on_label_set (l l' : list string) :
  (forall label, In label l <-> In label l') ->
  stateOf (ParseDeliveryLabels l) = stateOf (ParseDeliveryLabels l').
Proof.
  intros H. rewrite !stateOf_ParseDeliveryLabels.
  destruct (flags_of_markers l l' (H _) (H _)) as [-> ->]. reflexivity.
Qed.

Lemma state_depends_on_label_set_witness :
  stateOf (ParseDeliveryLabels ["delivery:acked"; "delivery:pending"; "delivery:acked"])
  = stateOf (ParseDeliveryLabels ["delivery:pending"; "delivery:acked"]).
Proof.
  apply state_depends_on_label_set.
  intros label. simpl. tauto.
Defined.

(** The ack sequence holds [delivery:acked], and its recipient is the
    last [delivery-acked-by:] value of any list it ends. *)
Lemma ack_sequence_In_acked (prior : list string) (r : string) (t : Time) :
  In DeliveryLabelAcked (prior ++ DeliveryAckLabelSequence r t)%list.
Proof. apply in_or_app. right. simpl. auto. Qed.

Lemma ack_sequence_lastSeen (prior : list string) (r : string) (t : Time) :
  lastSeen DeliveryLabelAckedByPrefix (prior ++ DeliveryAckLabelSequence r t)%list
  = Some r.
Proof.
  unfold DeliveryAckLabelSequence. apply lastSeen_last.
  intros label [<-|[<-|[]]].
  - apply acked_at_label_cases.
  - reflexivity.
Qed.

(** X1. The ack sequence appended to any label list derives the state
    [acked] with [ackedBy] equal to the recipient identity it was made
    for, whatever the identity, the time and the labels before it. *)
Theorem ack_sequence_acks (prior : list string) (r : string) (t : Time) :
  stateOf (ParseDeliveryLabels (prior ++ DeliveryAckLabelSequence r t)%list)
  = DeliveryStateAcked /\
  ackedByOf (ParseDeliveryLabels (prior ++ DeliveryAckLabelSequence r t)%list) = r.
Proof.
  rewrite (ParseDeliveryLabels_acked _ (ack_sequence_In_acked prior r t)).
  split; [reflexivity|].
  unfold ackedByOf. cbn [fst snd]. now rewrite ack_sequence_lastSeen.
Qed.

(** X2. For a time whose year in UTC has four digits, the ack sequence
    appended to any label list derives exactly [acked], the recipient
    identity, and the time in UTC without its fraction of a second: what
    [DeliveryAckLabelSequence] writes, [ParseDeliveryLabels] reads back,
    also after an earlier ack. *)
Theorem ack_sequence_round_trip (prior : list string) (r : string) (t : Time) :
  0 <= Year (UTC t) <= 9999 ->
  ParseDeliveryLabels (prior ++ DeliveryAckLabelSequence r t)%list
  = (DeliveryStateAcked, r, Some (TruncateSecond (UTC t))).
Proof.
  intros Hy.
  rewrite (ParseDeliveryLabels_acked _ (ack_sequence_In_acked prior r t)).
  rewrite ack_sequence_lastSeen.
  f_equal. unfold DeliveryAckLabelSequence.
  change (prior ++ [(DeliveryLabelAckedByPrefix ++ r)%string;
                    (DeliveryLabelAckedAtPrefix ++ Format (UTC t) RFC3339)%string;
                    DeliveryLabelAcked])%list
    with (prior ++ [(DeliveryLabelAckedByPrefix ++ r)%string]
                ++ (DeliveryLabelAckedAtPrefix ++ Format (UTC t) RFC3339)%string
                   :: [DeliveryLabelAcked])%list.
  rewrite app_assoc.
  apply lastParsedAt_last.
  - now apply Format_Parse_roundtrip.
  - intros w [H|[]]. pose proof (proj1 (proj2 (acked_at_label_cases w))) as E.
    rewrite <- H, String.eqb_refl in E. discriminate E.
Qed.

Lemma ack_sequence_round_trip_witness :
  ParseDeliveryLabels
    (["delivery:pending"; "delivery-acked-by:earlier";
      "delivery-acked-at:2026-02-17T11:00:00Z"; "delivery:acked"]
     ++ DeliveryAckLabelSequence "gastown/worker" (mkTime 1771329600 7 3600))%list
  = ("acked", "gastown/worker", Some (mkTime 1771329600 0 0)).
Proof.
  apply (ack_sequence_round_trip _ "gastown/worker" (mkTime 1771329600 7 3600)).
  vm_compute. split; discriminate.
Defined.

(** X5. The deriver takes [ackedBy] and [ackedAt] each from the last
    label of its prefix, without pairing them: when the labels of two
    acknowledgers interleave, the result can hold the identity of one and
    the time of the other. *)
Theorem interleaved_acks_mix_metadata
    (prior : list string) (rA rB : string) (tA tB : Time) :
  0 <= Year (UTC tA) <= 9999 ->
  ParseDeliveryLabels
    (prior ++ [ (DeliveryLabelAckedByPrefix ++ rA)%string;
                (DeliveryLabelAckedByPrefix ++ rB)%string;
                (DeliveryLabelAckedAtPrefix ++ Format (UTC tB) RFC3339)%string;
                (DeliveryLabelAckedAtPrefix ++ Format (UTC tA) RFC3339)%string;
                DeliveryLabelAcked ])%list
  = (DeliveryStateAcked, rB, Some (TruncateSecond (UTC tA))).
Proof.
  intros Hy.
  set (byA := (DeliveryLabelAckedByPrefix ++ rA)%string).
  set (atB := (DeliveryLabelAckedAtPrefix ++ Format (UTC tB) RFC3339)%string).
  set (atA := Format (UTC tA) RFC3339).
  rewrite ParseDeliveryLabels_acked
    by (apply in_or_app; right; simpl; auto 6).
  f_equal; [f_equal|].
  - change (prior ++ [byA; (DeliveryLabelAckedByPrefix ++ rB)%string; atB;
                      (DeliveryLabelAckedAtPrefix ++ atA)%string; DeliveryLabelAcked])%list
      with (prior ++ [byA] ++ (DeliveryLabelAckedByPrefix ++ rB)%string
                   :: [atB; (DeliveryLabelAckedAtPrefix ++ atA)%string;
                       DeliveryLabelAcked])%list.
    rewrite app_assoc, lastSeen_last; [reflexivity|].
    intros label [<-|[<-|[<-|[]]]];
      [apply acked_at_label_cases | apply acked_at_label_cases | reflexivity].
  - change (prior ++ [byA; (DeliveryLabelAckedByPrefix ++ rB)%string; atB;
                      (DeliveryLabelAckedAtPrefix ++ atA)%string; DeliveryLabelAcked])%list
      with (prior ++ [byA; (DeliveryLabelAckedByPrefix ++ rB)%string; atB]
                   ++ (DeliveryLabelAckedAtPrefix ++ atA)%string
                   :: [DeliveryLabelAcked])%list.
    rewrite app_assoc. apply lastParsedAt_last.
    + now apply Format_Parse_roundtrip.
    + intros w [H|[]]. pose proof (proj1 (proj2 (acked_at_label_cases w))) as E.
      rewrite <- H, String.eqb_refl in E. discriminate E.
Qed.

Lemma interleaved_acks_mix_metadata_witness :
  ParseDeliveryLabels
    (["delivery:pending"]
     ++ [ "delivery-acked-by:alice"; "delivery-acked-by:bob";
          "delivery-acked-at:2026-02-17T12:00:05Z";
          "delivery-acked-at:2026-02-17T12:00:00Z";
          "delivery:acked" ])%list
  = ("acked", "bob", Some (mkTime 1771329600 0 0)).
Proof.
  apply (interleaved_acks_mix_metadata ["delivery:pending"] "alice" "bob"
           (mkTime 1771329600 0 0) (mkTime 1771329605 0 0)).
  vm_compute. split; discriminate.
Defined.

(** ** Escaping of SQL string values *)

Lemma string_app_assoc (a b c : string) : (a ++ b) ++ c = a ++ (b ++ c).
Proof. induction a as [|x a IH]; simpl; [reflexivity | now rewrite IH]. Qed.

Lemma string_app_length (a b : string) :
  String.length (a ++ b) = (String.length a + String.length b)%nat.
Proof. induction a as [|x a IH]; simpl; [reflexivity | now rewrite IH]. Qed.

Lemma escapeSQLString_cons (b : ascii) (s : string) :
  escapeSQLString (String b s)
  = if Ascii.eqb b "'" then String "'" (String "'" (escapeSQLString s))
    else String b (escapeSQLString s).
Proof. unfold escapeSQLString. cbn [ReplaceAllByte]. now destruct (Ascii.eqb b "'"). Qed.

(** A value without a quote is its own escaped form. *)
Lemma escapeSQLString_no_quote (s : string) :
  countByte "'" s = 0%nat -> escapeSQLString s = s.
Proof.
  induction s as [|x s IH]; [reflexivity|].
  rewrite escapeSQLString_cons. cbn [countByte].
  destruct (Ascii.eqb x "'"); [discriminate|].
  intros H. now rewrite IH.
Qed.

(** X6. [escapeSQLString] works byte by byte: the escaped form of a
    concatenation is the concatenation of the escaped forms. *)
Theorem escapeSQLString_app (a b : string) :
  escapeSQLString (a ++ b) = escapeSQLString a ++ escapeSQLString b.
Proof.
  induction a as [|x a IH]; [reflexivity|].
  cbn [String.append]. rewrite !escapeSQLString_cons, IH.
  now destruct (Ascii.eqb x "'").
Qed.

(** X7. The escaped form is longer than the value by the number of
    single quotes in it, and equals the value exactly when the value has
    no single quote. *)
Theorem escapeSQLString_length (s : string) :
  String.length (escapeSQLString s) = (String.length s + countByte "'" s)%nat /\
  (escapeSQLString s = s <-> countByte "'" s = 0%nat).
Proof.
  assert (L : forall u, String.length (escapeSQLString u)
                        = (String.length u + countByte "'" u)%nat).
  { induction u as [|x u IH]; [reflexivity|].
    rewrite escapeSQLString_cons. cbn [countByte String.length].
    destruct (Ascii.eqb x "'"); cbn [String.length]; rewrite IH; lia. }
  split; [apply L|]. split.
  - intros E. pose proof (L s) as H. rewrite E in H. lia.
  - induction s as [|x s IH]; [reflexivity|].
    rewrite escapeSQLString_cons. cbn [countByte].
    destruct (Ascii.eqb x "'"); [discriminate|].
    intros H. now rewrite IH.
Qed.

Lemma escapeSQLString_length_witness :
  escapeSQLString "no quotes" = "no quotes".
Proof.
  apply (proj2 (escapeSQLString_length "no quotes")). reflexivity.
Defined.

(** Reading an escaped value inside a literal, up to its closing quote. *)
Lemma sqlLiterals_escaped (s rest : string) :
  byteIs rest 0 "'" = false ->
  sqlLiterals true (escapeSQLString s ++ String "'" rest)
  = option_map (cons s) (sqlLiterals false rest).
Proof.
  intros Hrest. induction s as [|x s IH].
  - cbn [escapeSQLString ReplaceAllByte String.append sqlLiterals].
    change (Ascii.eqb "'" "'") with true. cbv iota.
    destruct rest as [|c rest']; [reflexivity|].
    unfold byteIs in Hrest. cbn [String.get] in Hrest. rewrite Hrest.
    reflexivity.
  - rewrite escapeSQLString_cons.
    destruct (Ascii.eqb x "'") eqn:E.
    + apply Ascii.eqb_eq in E. subst x.
      cbn [String.append sqlLiterals]. change (Ascii.eqb "'" "'") with true. cbv iota.
      rewrite IH. now destruct (sqlLiterals false rest).
    + cbn [String.append sqlLiterals]. rewrite E, IH.
      now destruct (sqlLiterals false rest).
Qed.

(** X8. Between two single quotes, the escaped form of a value reads back
    as the value under the quote-doubling rule, whatever the value holds,
    and the text after the closing quote is read as SQL text again; so two
    different values never have the same escaped form. *)
Theorem escapeSQLString_reads_back :
  (forall s rest : string,
      byteIs rest 0 "'" = false ->
      sqlLiterals false (String "'" (escapeSQLString s ++ String "'" rest))
      = option_map (cons s) (sqlLiterals false rest)) /\
  (forall s s' : string, escapeSQLString s = escapeSQLString s' -> s = s').
Proof.
  split.
  - intros s rest H. cbn [sqlLiterals]. change (Ascii.eqb "'" "'") with true.
    cbv iota. now apply sqlLiterals_escaped.
  - intros s s' E.
    pose proof (sqlLiterals_escaped s EmptyString eq_refl) as H.
    pose proof (sqlLiterals_escaped s' EmptyString eq_refl) as H'.
    rewrite E, H' in H. now injection H.
Qed.

Lemma escapeSQLString_reads_back_witness :
  sqlLiterals false (String "'" (escapeSQLString "it's" ++ String "'" " AND x=1"))
  = option_map (cons "it's") (sqlLiterals false " AND x=1") /\
  "a" = "a".
Proof.
  split.
  - apply (proj1 escapeSQLString_reads_back). reflexivity.
  - apply (proj2 escapeSQLString_reads_back). reflexivity.
Defined.

(** X9. Whatever the town name and the wanted ID hold, the statement that
    [runWlClaim] builds has four string literals under the quote-doubling
    rule: the town name, [claimed], the wanted ID and [open]. *)
Theorem runWlClaim_query_literals (townName wantedID : string) :
  sqlLiterals false (runWlClaim_query townName wantedID)
  = Some [townName; "claimed"; wantedID; "open"].
Proof.
  unfold runWlClaim_query, wlCommonsDB.
  cbn -[escapeSQLString]. rewrite sqlLiterals_escaped by reflexivity.
  cbn -[escapeSQLString]. rewrite sqlLiterals_escaped by reflexivity.
  reflexivity.
Qed.

(** X10. Whatever its four arguments hold, the statement that [runWlDone]
    builds has seven string literals under the quote-doubling rule: the
    completion ID, the wanted ID, the town name, the evidence,
    [in_review], the evidence and the wanted ID. *)
Theorem runWlDone_query_literals (completionID wantedID townName evidence : string) :
  sqlLiterals false (runWlDone_query completionID wantedID townName evidence)
  = Some [completionID; wantedID; townName; evidence; "in_review"; evidence; wantedID].
Proof.
  unfold runWlDone_query, wlCommonsDB.
  do 6 (cbn -[escapeSQLString]; rewrite sqlLiterals_escaped by reflexivity).
  reflexivity.
Qed.

(** X11. Whatever the wanted ID holds, the statement that
    [queryWantedItem] builds has two string literals under the
    quote-doubling rule: the empty default of [COALESCE] and the wanted
    ID. *)
Theorem queryWantedItem_query_literals (wantedID : string) :
  sqlLiterals false (queryWantedItem_query wantedID) = Some [EmptyString; wantedID].
Proof.
  unfold queryWantedItem_query, wlCommonsDB.
  cbn -[escapeSQLString]. rewrite sqlLiterals_escaped by reflexivity.
  reflexivity.
Qed.

(** ** Completion IDs *)

Lemma hexString_length (bs : list ascii) :
  String.length (hexString bs) = (2 * List.length bs)%nat.
Proof. induction bs as [|b bs IH]; cbn [hexString String.length List.length]; lia. Qed.

Lemma hexChar_of_byte (b : ascii) :
  isLowerHex (hexChar (nat_of_ascii b / 16)) = true /\
  isLowerHex (hexChar (nat_of_ascii b mod 16)) = true.
Proof.
  destruct b as [[] [] [] [] [] [] [] []]; split; vm_compute; reflexivity.
Qed.

Lemma hexString_lower_hex (bs : list ascii) :
  allBytes isLowerHex (hexString bs) = true.
Proof.
  induction bs as [|b bs IH]; [reflexivity|].
  cbn [hexString allBytes]. destruct (hexChar_of_byte b) as [-> ->]. exact IH.
Qed.

Lemma lower_hex_no_quote (s : string) :
  allBytes isLowerHex s = true -> countByte "'" s = 0%nat.
Proof.
  induction s as [|x s IH]; [reflexivity|].
  cbn [allBytes countByte]. intros H. apply andb_true_iff in H as [Hx Hs].
  destruct (Ascii.eqb x "'") eqn:E; [|now apply IH].
  apply Ascii.eqb_eq in E. subst x. discriminate Hx.
Qed.

(** X12. For every hash function, input and clock reading, a completion
    ID is [c-] followed by sixteen lower-case hexadecimal digits, eighteen
    bytes in all, and [escapeSQLString] leaves it unchanged. *)
Theorem generateCompletionID_form
    (Sum256 : string -> Bytes32) (wantedID townHandle : string) (now : Time) :
  (exists digits,
      generateCompletionID Sum256 wantedID townHandle now = "c-" ++ digits /\
      String.length digits = 16%nat /\
      allBytes isLowerHex digits = true) /\
  String.length (generateCompletionID Sum256 wantedID townHandle now) = 18%nat /\
  escapeSQLString (generateCompletionID Sum256 wantedID townHandle now)
  = generateCompletionID Sum256 wantedID townHandle now.
Proof.
  unfold generateCompletionID.
  set (h := Sum256 _). destruct h as [bs Hbs]. cbn [proj1_sig].
  assert (L : String.length (hexString (firstn 8 bs)) = 16%nat).
  { rewrite hexString_length, length_firstn, Hbs. reflexivity. }
  split; [|split].
  - eexists. split; [reflexivity|]. split; [exact L | apply hexString_lower_hex].
  - cbn [String.append String.length]. now rewrite L.
  - apply escapeSQLString_no_quote. cbn [String.append countByte].
    change (Ascii.eqb "c" "'") with false. change (Ascii.eqb "-" "'") with false.
    cbv iota. apply lower_hex_no_quote, hexString_lower_hex.
Qed.

(** X13. The hashed text joins the wanted ID and the town handle with a
    bar and nothing else, so at one clock reading a bar can move from one
    component to the other without changing the completion ID. *)
Theorem generateCompletionID_joins_components
    (Sum256 : string -> Bytes32) (a b c : string) (now : Time) :
  generateCompletionID Sum256 (a ++ "|" ++ b) c now
  = generateCompletionID Sum256 a (b ++ "|" ++ c) now.
Proof.
  unfold generateCompletionID. now rewrite !string_app_assoc.
Qed.
